(** * HASHER demo-frame generators: frame encoder, pattern catalog, JSON output

    A shallow embedding of the two generator scripts
      - [src/pipeline/1_DATA_MINER/scripts/generate_hello_world.py]  (module [Raw])
      - [src/scripts/generate_hello_world.py]                        (module [Remapped])
    together with the parts of the Python run time they rely on: integers
    and lists, insertion-ordered dicts, [json.dump(.., indent=2)] and the
    file written through [os.makedirs] / [open(.., "w")]. *)

From Stdlib Require Import ZArith List String Ascii DecimalString Lia.
From stdpp Require Import gmap strings list.
From Stdlib Require Import DecimalPos.
Import ListNotations.

Local Open Scope Z_scope.
Local Open Scope string_scope.
Local Open Scope list_scope.

Set Warnings "-register-all".

(** ** Python values *)

Module Py.

(** The values the scripts build: [int] (unbounded, hence [Z]), [str],
    [list] and [dict].  A dict keeps its items in insertion order, which is
    the order [json.dump] writes them in, so it is an association list. *)
Inductive value : Type :=
| VInt (n : Z)
| VStr (s : string)
| VList (items : list value)
| VDict (items : list (string * value)).

(** [a % b] on ints: the remainder takes the sign of the divisor, as
    [Z.modulo] does.  Only used with the literal divisor 1000. *)
Definition mod_ (a b : Z) : Z := a mod b.

(** [l * n] on lists: [n] copies of [l] one after the other, none when
    [n <= 0]. *)
Definition list_mul {A} (l : list A) (n : Z) : list A :=
  List.concat (List.repeat l (Z.to_nat n)).

(** [l.append(x)], as the list after the call. *)
Definition append {A} (l : list A) (x : A) : list A := l ++ [x].

(** [len(l)]. *)
Definition len {A} (l : list A) : Z := Z.of_nat (List.length l).

(** A list of ints as a value. *)
Definition ints (l : list Z) : value := VList (List.map VInt l).

(** [d[k]] on the items of a dict ([None] stands for [KeyError]). *)
Fixpoint lookup_items (k : string) (items : list (string * value)) : option value :=
  match items with
  | [] => None
  | (k', v) :: rest => if String.eqb k k' then Some v else lookup_items k rest
  end.

Definition getitem (d : value) (k : string) : option value :=
  match d with
  | VDict items => lookup_items k items
  | _ => None
  end.

(** [len(v)] on a value ([None] stands for the [TypeError] on an int). *)
Definition vlen (v : value) : option Z :=
  match v with
  | VInt _ => None
  | VStr s => Some (Z.of_nat (String.length s))
  | VList items => Some (len items)
  | VDict items => Some (len items)
  end.

(** [list(d.keys())]. *)
Definition keys (d : value) : list string :=
  match d with
  | VDict items => List.map fst items
  | _ => []
  end.

End Py.

Import Py.

(** ** [json.dump(obj, fp, indent=2)]

    The pure-Python encoder of the [json] package ([json/encoder.py]), at the
    settings the scripts use: [ensure_ascii=True], [indent=2], hence the
    separators [","] and [": "], keys in dict order. *)

Module Json.

Definition dquote : ascii := "034"%char.
Definition backslash : ascii := "092"%char.
Definition newline : ascii := "010"%char.

Definition str1 (c : ascii) : string := String c EmptyString.

(** One lower-case hexadecimal digit. *)
Definition hex_digit (n : nat) : ascii :=
  match String.get n "0123456789abcdef" with
  | Some c => c
  | None => "0"%char
  end.

(** [ESCAPE_DCT] and the [\uXXXX] fallback of [py_encode_basestring_ascii],
    for one character.  A [str] is modelled by its code points below 256;
    everything outside [' '..'~'], the double quote and the backslash are
    escaped. *)
Definition escape_char (c : ascii) : string :=
  let n := nat_of_ascii c in
  if Ascii.eqb c dquote then String backslash (str1 dquote)
  else if Ascii.eqb c backslash then String backslash (str1 backslash)
  else if Nat.eqb n 10 then String backslash "n"
  else if Nat.eqb n 13 then String backslash "r"
  else if Nat.eqb n 9 then String backslash "t"
  else if Nat.eqb n 12 then String backslash "f"
  else if Nat.eqb n 8 then String backslash "b"
  else if (Nat.ltb n 32 || Nat.ltb 126 n)%bool then
    String backslash
      (String "u" (String "0" (String "0"
        (String (hex_digit (Nat.div n 16)) (str1 (hex_digit (Nat.modulo n 16)))))))
  else str1 c.

Fixpoint escape (s : string) : string :=
  match s with
  | EmptyString => EmptyString
  | String c rest => escape_char c +:+ escape rest
  end.

(** [py_encode_basestring_ascii(s)]. *)
Definition encode_basestring_ascii (s : string) : string :=
  String dquote (escape s +:+ str1 dquote).

(** [int.__repr__(n)]: decimal digits, with a leading [-] when negative. *)
Definition int_repr (n : Z) : string := NilZero.string_of_int (Z.to_int n).

Fixpoint spaces (n : nat) : string :=
  match n with
  | O => EmptyString
  | S k => String " " (spaces k)
  end.

(** ['\n' + indent * level]. *)
Definition newline_indent (indent level : nat) : string :=
  String newline (spaces (indent * level)).

(** The chunks of a non-empty container body, each but the first behind
    [item_separator + newline_indent]. *)
Fixpoint join (sep : string) (chunks : list string) : string :=
  match chunks with
  | [] => EmptyString
  | [c] => c
  | c :: rest => c +:+ sep +:+ join sep rest
  end.

(** [_iterencode(o, level)], as the concatenation of the chunks it yields
    ([_iterencode_list] and [_iterencode_dict] for the containers). *)
Fixpoint iterencode (indent level : nat) (o : value) : string :=
  match o with
  | VInt n => int_repr n
  | VStr s => encode_basestring_ascii s
  | VList [] => "[]"
  | VList items =>
      "[" +:+ newline_indent indent (S level)
      +:+ join ("," +:+ newline_indent indent (S level))
               (List.map (iterencode indent (S level)) items)
      +:+ newline_indent indent level +:+ "]"
  | VDict [] => "{}"
  | VDict items =>
      "{" +:+ newline_indent indent (S level)
      +:+ join ("," +:+ newline_indent indent (S level))
               (List.map (fun kv : string * value =>
                            encode_basestring_ascii (fst kv) +:+ ": "
                            +:+ iterencode indent (S level) (snd kv)) items)
      +:+ newline_indent indent level +:+ "}"
  end.

(** [json.dump(obj, fp, indent=indent)]: the text that the successive
    [fp.write(chunk)] calls put in the file. *)
Definition dump (obj : value) (indent : nat) : string := iterencode indent 0 obj.

(** *** Reading a document back: [json.loads]

    The scanner of [json/decoder.py] and [json/scanner.py], for the
    documents whose values are ints, strings, arrays and objects; a
    document with anything else ([null], [true], a float, a code point
    above 255) is outside [value] and gives [None], as a malformed one
    does. *)

Definition is_ws (c : ascii) : bool :=
  let n := nat_of_ascii c in
  (Nat.eqb n 32 || Nat.eqb n 9 || Nat.eqb n 10 || Nat.eqb n 13)%bool.

Fixpoint skip_ws (s : string) : string :=
  match s with
  | String c rest => if is_ws c then skip_ws rest else s
  | EmptyString => s
  end.

Definition digit (c : ascii) : option Z :=
  let n := nat_of_ascii c in
  if (Nat.leb 48 n && Nat.leb n 57)%bool then Some (Z.of_nat (n - 48)) else None.

Definition hex_value (c : ascii) : option nat :=
  let n := nat_of_ascii c in
  if (Nat.leb 48 n && Nat.leb n 57)%bool then Some (n - 48)%nat
  else if (Nat.leb 97 n && Nat.leb n 102)%bool then Some (n - 87)%nat
  else if (Nat.leb 65 n && Nat.leb n 70)%bool then Some (n - 55)%nat
  else None.

(** The digits after the first one. *)
Fixpoint scan_digits (acc : Z) (s : string) : Z * string :=
  match s with
  | String c rest =>
      match digit c with
      | Some d => scan_digits (10 * acc + d) rest
      | None => (acc, s)
      end
  | EmptyString => (acc, s)
  end.

(** [NUMBER_RE], integer part only: a single [0], or a non-zero digit and
    the digits after it; a fraction or an exponent behind it makes a
    float. *)
Definition scan_nat (s : string) : option (Z * string) :=
  match s with
  | String c rest =>
      d ← digit c;
      let '(n, rest') := if Z.eqb d 0 then (0, rest) else scan_digits d rest in
      match rest' with
      | String c' _ =>
          if (Ascii.eqb c' "." || Ascii.eqb c' "e" || Ascii.eqb c' "E")%bool
          then None else Some (n, rest')
      | EmptyString => Some (n, rest')
      end
  | EmptyString => None
  end.

Definition scan_int (s : string) : option (Z * string) :=
  match s with
  | String "-" rest => '(n, rest') ← scan_nat rest; Some (- n, rest')
  | _ => scan_nat s
  end.

(** [py_scanstring], from behind the opening quote, [strict=True]. *)
Fixpoint scan_string (s : string) : option (string * string) :=
  match s with
  | EmptyString => None
  | String c rest =>
      if Ascii.eqb c dquote then Some (EmptyString, rest)
      else if Ascii.eqb c backslash then
        match rest with
        | String "u" (String h1 (String h2 (String h3 (String h4 rest')))) =>
            a ← hex_value h1; b ← hex_value h2; c ← hex_value h3; d ← hex_value h4;
            if (Nat.eqb a 0 && Nat.eqb b 0)%bool then
              '(body, rest'') ← scan_string rest';
              Some (String (ascii_of_nat (16 * c + d)) body, rest'')
            else None
        | String e rest' =>
            ch ← (if Ascii.eqb e dquote then Some dquote
                  else if Ascii.eqb e backslash then Some backslash
                  else if Ascii.eqb e "/" then Some "/"%char
                  else if Ascii.eqb e "b" then Some "008"%char
                  else if Ascii.eqb e "f" then Some "012"%char
                  else if Ascii.eqb e "n" then Some "010"%char
                  else if Ascii.eqb e "r" then Some "013"%char
                  else if Ascii.eqb e "t" then Some "009"%char
                  else None);
            '(body, rest'') ← scan_string rest';
            Some (String ch body, rest'')
        | EmptyString => None
        end
      else if Nat.ltb (nat_of_ascii c) 32 then None
      else '(body, rest') ← scan_string rest; Some (String c body, rest')
  end.

(** [d[k] = v] on the items of a dict: an existing key keeps its place. *)
Fixpoint setitem (items : list (string * value)) (k : string) (v : value)
    : list (string * value) :=
  match items with
  | [] => [(k, v)]
  | (k', v') :: rest =>
      if String.eqb k k' then (k', v) :: rest else (k', v') :: setitem rest k v
  end.

(** [scan_once], [JSONArray] and [JSONObject].  [fuel] bounds the number of
    calls; [scan_array] and [scan_object] start at an element (a key) and
    carry the elements (items) read so far. *)
Fixpoint scan_once (fuel : nat) (s : string) : option (value * string) :=
  match fuel with
  | O => None
  | S fuel =>
      match s with
      | EmptyString => None
      | String c rest =>
          if Ascii.eqb c dquote then
            '(str, rest') ← scan_string rest; Some (VStr str, rest')
          else if Ascii.eqb c "[" then
            match skip_ws rest with
            | String "]" rest' => Some (VList [], rest')
            | rest' => scan_array fuel rest' []
            end
          else if Ascii.eqb c "{" then
            match skip_ws rest with
            | String "}" rest' => Some (VDict [], rest')
            | rest' => scan_object fuel rest' []
            end
          else '(n, rest') ← scan_int s; Some (VInt n, rest')
      end
  end
with scan_array (fuel : nat) (s : string) (acc : list value)
    : option (value * string) :=
  match fuel with
  | O => None
  | S fuel =>
      '(v, rest) ← scan_once fuel s;
      match skip_ws rest with
      | String "]" rest' => Some (VList (acc ++ [v]), rest')
      | String "," rest' => scan_array fuel (skip_ws rest') (acc ++ [v])
      | _ => None
      end
  end
with scan_object (fuel : nat) (s : string) (acc : list (string * value))
    : option (value * string) :=
  match fuel with
  | O => None
  | S fuel =>
      match s with
      | String c rest =>
          if Ascii.eqb c dquote then
            '(k, rest1) ← scan_string rest;
            match skip_ws rest1 with
            | String ":" rest2 =>
                '(v, rest3) ← scan_once fuel (skip_ws rest2);
                match skip_ws rest3 with
                | String "}" rest' => Some (VDict (setitem acc k v), rest')
                | String "," rest' => scan_object fuel (skip_ws rest') (setitem acc k v)
                | _ => None
                end
            | _ => None
            end
          else None
      | EmptyString => None
      end
  end.

(** [json.loads(s)]: one value, white space around it, nothing else. *)
Definition loads (s : string) : option value :=
  '(v, rest) ← scan_once (2 * String.length s + 2) (skip_ws s);
  match skip_ws rest with
  | EmptyString => Some v
  | _ => None
  end.

End Json.


(** ** The operating system, as far as the scripts touch it

    The scripts resolve a path under the user's home directory, create the
    directory chain, write one file and print one line.  The world holds what
    these calls read and change.  A path is the string the script builds;
    permissions, symbolic links and [.]/[..] components are not modelled. *)

Module Os.

Inductive node : Type :=
| Dir
| File (content : string).

Record world : Type := World
  { home : string;              (* what [~] resolves to *)
    fs : gmap string node;      (* path -> what is there *)
    stdout : list string }.     (* lines printed so far *)

(** The [OSError]s the calls below can raise. *)
Inductive exn : Type :=
| FileExistsError
| NotADirectoryError
| IsADirectoryError.

(** A call either returns or raises. *)
Inductive result (A : Type) : Type :=
| Ok (a : A)
| Raise (e : exn).
Arguments Ok {A} a.
Arguments Raise {A} e.

Definition bind {A B} (m : result A) (k : A -> result B) : result B :=
  match m with
  | Ok a => k a
  | Raise e => Raise e
  end.

(** A statement that may raise, followed by the rest of the block. *)
Notation "'let*' x ':=' e 'in' k" := (bind e (fun x => k))
  (at level 10, x name, e at level 100, k at level 200).

(** [s.rstrip('/')]. *)
Fixpoint rstrip_slash (s : string) : string :=
  match s with
  | EmptyString => EmptyString
  | String c rest =>
      match rstrip_slash rest with
      | EmptyString => if Ascii.eqb c "/" then EmptyString else String c EmptyString
      | rest' => String c rest'
      end
  end.

(** [os.path.expanduser(path)] for [~] and [~/...]; a [~user] path is left
    as it is (no other user is known to the model). *)
Definition expanduser (w : world) (path : string) : string :=
  match path with
  | String "~" tail =>
      match tail with
      | EmptyString | String "/" _ =>
          match rstrip_slash (home w) +:+ tail with
          | EmptyString => "/"
          | expanded => expanded
          end
      | _ => path
      end
  | _ => path
  end.

Fixpoint ends_with_slash (s : string) : bool :=
  match s with
  | EmptyString => false
  | String c EmptyString => Ascii.eqb c "/"
  | String _ rest => ends_with_slash rest
  end.

(** [os.path.join(a, b)]. *)
Definition path_join (a b : string) : string :=
  match b with
  | String "/" _ => b
  | _ =>
      match a with
      | EmptyString => b
      | _ => if ends_with_slash a then a +:+ b else a +:+ "/" +:+ b
      end
  end.

(** The directories on the way to [rest], outermost first, then the path
    itself: for [/a/b], the paths [/a] and [/a/b].  [pre] is the part
    already walked. *)
Fixpoint chain (pre rest : string) : list string :=
  let here :=
    match pre with
    | EmptyString => []
    | _ => if ends_with_slash pre then [] else [pre]
    end in
  match rest with
  | EmptyString => here
  | String c rest' =>
      (if Ascii.eqb c "/" then here else []) ++ chain (pre +:+ String c EmptyString) rest'
  end.

(** One [mkdir] of [os.makedirs(.., exist_ok=True)]: an existing directory
    is kept; a regular file in the way raises, [FileExistsError] at the
    leaf and [NotADirectoryError] above it. *)
Definition mkdir_exist_ok (leaf : string) (fs : gmap string node) (p : string)
    : result (gmap string node) :=
  match fs !! p with
  | None => Ok (<[p := Dir]> fs)
  | Some Dir => Ok fs
  | Some (File _) =>
      Raise (if String.eqb p leaf then FileExistsError else NotADirectoryError)
  end.

Fixpoint mkdirs (leaf : string) (ps : list string) (fs : gmap string node)
    : result (gmap string node) :=
  match ps with
  | [] => Ok fs
  | p :: ps' => let* fs' := mkdir_exist_ok leaf fs p in mkdirs leaf ps' fs'
  end.

(** [os.makedirs(name, exist_ok=True)]. *)
Definition makedirs (name : string) (w : world) : result world :=
  let* fs' := mkdirs name (chain EmptyString name) (fs w) in
  Ok (World (home w) fs' (stdout w)).

(** [open(path, "w")]: the file is created, or emptied when it exists; a
    directory there raises.  The directory of [path] is taken to be there:
    the scripts open the file right after [makedirs] of that directory. *)
Definition open_w (path : string) (w : world) : result world :=
  match fs w !! path with
  | Some Dir => Raise IsADirectoryError
  | _ => Ok (World (home w) (<[path := File EmptyString]> (fs w)) (stdout w))
  end.

(** [f.write(text)] on the file opened at [path]: [text] goes behind what
    the file holds. *)
Definition write (path text : string) (w : world) : world :=
  match fs w !! path with
  | Some (File content) =>
      World (home w) (<[path := File (content +:+ text)]> (fs w)) (stdout w)
  | _ => w
  end.

(** [print(line)]. *)
Definition print (line : string) (w : world) : world :=
  World (home w) (fs w) (stdout w ++ [line]).

(** The content of the regular file at [path], if there is one. *)
Definition read (w : world) (path : string) : option string :=
  match fs w !! path with
  | Some (File content) => Some content
  | _ => None
  end.

End Os.

Import Os.

(** ** Catalog entries

    One entry of a pattern catalog: the six arguments of one
    [create_frame(source, chunk, start, tokens, target, slots)] call. *)
Record entry : Type := Entry
  { source : string;
    chunk : Z;
    start : Z;
    tokens : list Z;
    target : Z;
    slots : list Z }.

(** ** The raw-mode generator *)

Module Raw.

Definition create_frame (source : string) (chunk start : Z) (tokens : list Z)
    (target : Z) (slots : list Z) : value :=
  VDict
    [ ("source_file", VStr source);
      ("chunk_id", VInt chunk);
      ("window_start", VInt start);
      ("token_sequence", ints tokens);
      ("target_token", VInt target);
      ("feature_vector", ints slots);
      ("context_hash", VInt 0) ].

(** The script body up to the output step: [frames = []] followed by the
    ten [frames.append(create_frame(..))] statements, in program order.
    [[0]*12] is evaluated anew at every call. *)
Definition frames : list value :=
  let frames := [] in
  (* Basic patterns *)
  let frames := append frames (create_frame "demo.txt" 1 0 [9906] 1917 (list_mul [0] 12)) in
  let frames := append frames (create_frame "demo.txt" 2 0 [1917] 0 (list_mul [0] 12)) in
  let frames := append frames (create_frame "demo.txt" 3 0 [14957] 0 (list_mul [0] 12)) in
  (* Variations *)
  let frames := append frames (create_frame "demo.txt" 4 0 [6504; 261] 1917 (list_mul [0] 12)) in
  let frames := append frames (create_frame "demo.txt" 5 0 [8460; 261] 1917 (list_mul [0] 12)) in
  (* Questions *)
  let frames := append frames (create_frame "demo.txt" 6 0 [3923] 374 (list_mul [0] 12)) in
  let frames := append frames (create_frame "demo.txt" 7 0 [374] 701 (list_mul [0] 12)) in
  let frames := append frames (create_frame "demo.txt" 8 0 [701] 836 (list_mul [0] 12)) in
  let frames := append frames (create_frame "demo.txt" 9 0 [836] 30 (list_mul [0] 12)) in
  let frames := append frames (create_frame "demo.txt" 10 0 [59175] 701 (list_mul [0] 12)) in
  frames.

(** The pattern catalog: the argument tuples of the ten calls above, in
    the order the script makes them. *)
Definition catalog : list entry :=
  [ Entry "demo.txt" 1 0 [9906] 1917 (list_mul [0] 12);
    Entry "demo.txt" 2 0 [1917] 0 (list_mul [0] 12);
    Entry "demo.txt" 3 0 [14957] 0 (list_mul [0] 12);
    Entry "demo.txt" 4 0 [6504; 261] 1917 (list_mul [0] 12);
    Entry "demo.txt" 5 0 [8460; 261] 1917 (list_mul [0] 12);
    Entry "demo.txt" 6 0 [3923] 374 (list_mul [0] 12);
    Entry "demo.txt" 7 0 [374] 701 (list_mul [0] 12);
    Entry "demo.txt" 8 0 [701] 836 (list_mul [0] 12);
    Entry "demo.txt" 9 0 [836] 30 (list_mul [0] 12);
    Entry "demo.txt" 10 0 [59175] 701 (list_mul [0] 12) ].

(** The frame encoder applied to one catalog entry. *)
Definition encode (e : entry) : value :=
  create_frame (source e) (chunk e) (start e) (tokens e) (target e) (slots e).

(** The output step: the rest of the script.  [out_dir] and [out_path] are
    the script's two path variables, as functions of the world they are
    computed in; the [with] block is [open_w] and the [write] in it. *)
Definition out_dir (w : world) : string :=
  expanduser w "~/.local/share/hasher/data/frames".

Definition out_path (w : world) : string :=
  path_join (out_dir w) "training_frames.json".

Definition main (w : world) : result world :=
  let out_dir := expanduser w "~/.local/share/hasher/data/frames" in
  let* w := makedirs out_dir w in
  let out_path := path_join out_dir "training_frames.json" in
  let* w := open_w out_path w in
  let w := write out_path (Json.dump (VList frames) 2) w in
  Ok (print ("Generated " +:+ Json.int_repr (len frames)
             +:+ " robust demo frames in " +:+ out_path) w).

End Raw.

(** ** The remapped-mode generator *)

Module Remapped.

Definition create_frame (source : string) (chunk start : Z) (tokens : list Z)
    (target : Z) (slots : list Z) : value :=
  (* Map target token to vocab size 1000 *)
  let vocab_target := mod_ target 1000 in
  VDict
    [ ("source_file", VStr source);
      ("chunk_id", VInt chunk);
      ("window_start", VInt start);
      ("token_sequence", ints tokens);
      ("target_token", VInt vocab_target);
      ("feature_vector", ints slots);
      ("context_hash", VInt 0) ].

(** The script body up to the output step: [frames = []] followed by the
    five [frames.append(create_frame(..))] statements, in program order. *)
Definition frames : list value :=
  let frames := [] in
  (* Pattern 1: Hello ->  world -> ! *)
  (* [906] -> 917 *)
  let frames := append frames (create_frame "demo.txt" 1 0 [906] 917
    [0x11111111; 0x22222222; 0x33333333; 0x44444444; 0x00000001; 0; 0; 0; 0; 0; 0x1000; 0]) in
  (* [906, 917] -> 0 *)
  let frames := append frames (create_frame "demo.txt" 1 0 [906; 917] 0
    [0x11111111; 0x22222222; 0x33333333; 0x44444444; 0x00000002; 0; 0; 0; 0; 0; 0x1000; 1]) in
  (* Pattern 2: What is ->  your ->  name -> ? *)
  (* [923, 374] -> 701 *)
  let frames := append frames (create_frame "demo.txt" 2 0 [923; 374] 701
    [0xAAAAAAAA; 0xBBBBBBBB; 0xCCCCCCCC; 0xDDDDDDDD; 0x00000001; 0; 0; 0; 0; 1; 0x1000; 0]) in
  (* [923, 374, 701] -> 836 *)
  let frames := append frames (create_frame "demo.txt" 2 0 [923; 374; 701] 836
    [0xAAAAAAAA; 0xBBBBBBBB; 0xCCCCCCCC; 0xDDDDDDDD; 0x00000002; 0; 0; 0; 0; 1; 0x1000; 1]) in
  (* [923, 374, 701, 836] -> 30 *)
  let frames := append frames (create_frame "demo.txt" 2 0 [923; 374; 701; 836] 30
    [0xAAAAAAAA; 0xBBBBBBBB; 0xCCCCCCCC; 0xDDDDDDDD; 0x00000003; 0; 0; 0; 0; 1; 0x1000; 2]) in
  frames.

(** The pattern catalog: the argument tuples of the five calls above, in
    the order the script makes them. *)
Definition catalog : list entry :=
  [ Entry "demo.txt" 1 0 [906] 917
      [0x11111111; 0x22222222; 0x33333333; 0x44444444; 0x00000001; 0; 0; 0; 0; 0; 0x1000; 0];
    Entry "demo.txt" 1 0 [906; 917] 0
      [0x11111111; 0x22222222; 0x33333333; 0x44444444; 0x00000002; 0; 0; 0; 0; 0; 0x1000; 1];
    Entry "demo.txt" 2 0 [923; 374] 701
      [0xAAAAAAAA; 0xBBBBBBBB; 0xCCCCCCCC; 0xDDDDDDDD; 0x00000001; 0; 0; 0; 0; 1; 0x1000; 0];
    Entry "demo.txt" 2 0 [923; 374; 701] 836
      [0xAAAAAAAA; 0xBBBBBBBB; 0xCCCCCCCC; 0xDDDDDDDD; 0x00000002; 0; 0; 0; 0; 1; 0x1000; 1];
    Entry "demo.txt" 2 0 [923; 374; 701; 836] 30
      [0xAAAAAAAA; 0xBBBBBBBB; 0xCCCCCCCC; 0xDDDDDDDD; 0x00000003; 0; 0; 0; 0; 1; 0x1000; 2] ].

(** The frame encoder applied to one catalog entry. *)
Definition encode (e : entry) : value :=
  create_frame (source e) (chunk e) (start e) (tokens e) (target e) (slots e).

(** The output step: the rest of the script.  [out_dir] and [out_path] are
    the script's two path variables, as functions of the world they are
    computed in; the [with] block is [open_w] and the [write] in it. *)
Definition out_dir (w : world) : string :=
  expanduser w "~/.local/share/hasher/data/frames".

Definition out_path (w : world) : string :=
  path_join (out_dir w) "training_frames.json".

Definition main (w : world) : result world :=
  let out_dir := expanduser w "~/.local/share/hasher/data/frames" in
  let* w := makedirs out_dir w in
  let out_path := path_join out_dir "training_frames.json" in
  let* w := open_w out_path w in
  let w := write out_path (Json.dump (VList frames) 2) w in
  Ok (print ("Generated " +:+ Json.int_repr (len frames)
             +:+ " demo frames in " +:+ out_path) w).

End Remapped.

(** ** The output step of the scripts

    Both scripts end in the same five statements; they differ in the frames
    they dump and in the wording of the summary line.  [output_step] is that
    common shape, with the document text and the summary as parameters. *)

Definition output_step (text : string) (summary : string -> string) (w : world)
    : result world :=
  let out_dir := expanduser w "~/.local/share/hasher/data/frames" in
  let* w := makedirs out_dir w in
  let out_path := path_join out_dir "training_frames.json" in
  let* w := open_w out_path w in
  let w := write out_path text w in
  Ok (print (summary out_path) w).

(** ** Predicates on frames

    The field invariants of the frame data model, read off a frame the way a
    consumer reads the dict. *)

Definition frame_invariants (frame : value) : Prop :=
  exists (s : string) (c ws : Z) (toks : list Z),
    getitem frame "source_file" = Some (VStr s) /\ s <> EmptyString
    /\ getitem frame "chunk_id" = Some (VInt c) /\ 1 <= c
    /\ getitem frame "window_start" = Some (VInt ws) /\ 0 <= ws
    /\ getitem frame "token_sequence" = Some (ints toks) /\ toks <> [].

(** Every context token of the frame lies in the vocabulary window
    [lo, hi]. *)
Definition tokens_within (lo hi : Z) (frame : value) : Prop :=
  exists toks : list Z,
    getitem frame "token_sequence" = Some (ints toks)
    /\ Forall (fun t => lo <= t <= hi) toks.

(** The frame of the raw-mode end-to-end scenario, field by field. *)
Definition scenario_frame : value :=
  VDict
    [ ("source_file", VStr "demo.txt");
      ("chunk_id", VInt 1);
      ("window_start", VInt 0);
      ("token_sequence", VList [VInt 9906]);
      ("target_token", VInt 1917);
      ("feature_vector",
        VList [VInt 0; VInt 0; VInt 0; VInt 0; VInt 0; VInt 0;
               VInt 0; VInt 0; VInt 0; VInt 0; VInt 0; VInt 0]);
      ("context_hash", VInt 0) ].

(** The same frame as the JSON text of the scenario, written here with
    single quotes in the place of the double quotes. *)
Fixpoint requote (s : string) : string :=
  match s with
  | EmptyString => EmptyString
  | String c rest =>
      String (if Ascii.eqb c "'" then Json.dquote else c) (requote rest)
  end.

Definition scenario_text : string :=
  requote
    ("{'source_file':'demo.txt','chunk_id':1,'window_start':0,"
     +:+ "'token_sequence':[9906],'target_token':1917,"
     +:+ "'feature_vector':[0,0,0,0,0,0,0,0,0,0,0,0],'context_hash':0}").

(** A world to run the scripts in: nothing on disk yet. *)
Definition fresh_world : world := World "/home/user" ∅ [].

(** ** More predicates on frames *)

(** The seven keys of a frame, in the order the encoders write them. *)
Definition frame_keys_list : list string :=
  ["source_file"; "chunk_id"; "window_start"; "token_sequence";
   "target_token"; "feature_vector"; "context_hash"].

(** ** What can stand in the way of the output step *)

(** No regular file sits at any of the paths [ps]. *)
Definition no_file_at (ps : list string) (fs : gmap string node) : Prop :=
  forall p content, p ∈ ps -> fs !! p <> Some (File content).

(** The file system after a run of the output step that raised nothing:
    the document at [path], a directory at every path of [dirs], the rest as
    before. *)
Definition fs_after (path text : string) (dirs : list string)
    (before : gmap string node) (p : string) : option node :=
  if decide (p = path) then Some (File text)
  else if decide (p ∈ dirs) then Some Dir
  else before !! p.

(** A world in which a regular file sits where the scripts need a
    directory. *)
Definition blocked_world : world :=
  World "/home/user" {[ "/home/user/.local" := File "not a directory" ]} [].

(** ** Documents that read back

    [json.loads] merges the items of an object that share a key, so a dict
    reads back as itself only if its keys are distinct, at every depth.  The
    dicts the encoders build are of that kind. *)

Fixpoint distinct_keys (v : value) : bool :=
  match v with
  | VInt _ | VStr _ => true
  | VList items => forallb distinct_keys items
  | VDict items =>
      bool_decide (NoDup (List.map fst items))
      && forallb (fun kv : string * value => distinct_keys (snd kv)) items
  end.

(** The number of calls the scanner makes on the text of a value: what
    [fuel] has to cover. *)
Fixpoint scan_calls (v : value) : nat :=
  match v with
  | VInt _ | VStr _ => 1
  | VList items => S (list_sum (List.map (fun x => S (scan_calls x)) items))
  | VDict items =>
      S (list_sum (List.map (fun kv : string * value => S (scan_calls (snd kv))) items))
  end.

(** A number ends where the text ends or goes on with something that is
    neither a digit nor the start of a fraction or an exponent. *)
Definition ends_number (rest : string) : bool :=
  match rest with
  | EmptyString => true
  | String c _ =>
      match Json.digit c with
      | Some _ => false
      | None => negb (Ascii.eqb c "." || Ascii.eqb c "e" || Ascii.eqb c "E")
      end
  end.

(** The value of the digits [d] read behind the digits already worth
    [acc]. *)
Fixpoint uint_value (d : Decimal.uint) (acc : Z) : Z :=
  match d with
  | Decimal.Nil => acc
  | Decimal.D0 l => uint_value l (10 * acc)
  | Decimal.D1 l => uint_value l (10 * acc + 1)
  | Decimal.D2 l => uint_value l (10 * acc + 2)
  | Decimal.D3 l => uint_value l (10 * acc + 3)
  | Decimal.D4 l => uint_value l (10 * acc + 4)
  | Decimal.D5 l => uint_value l (10 * acc + 5)
  | Decimal.D6 l => uint_value l (10 * acc + 6)
  | Decimal.D7 l => uint_value l (10 * acc + 7)
  | Decimal.D8 l => uint_value l (10 * acc + 8)
  | Decimal.D9 l => uint_value l (10 * acc + 9)
  end.

(** What the scanner needs to know of the first character of a value: it is
    no white space and closes no array or object. *)
Definition opens_value (c : ascii) : Prop :=
  Json.is_ws c = false /\ c <> "]"%char /\ c <> "}"%char.

(** ** Plain text *)

(** A character of a document as [ensure_ascii] promises it: a printable
    ASCII character or the line feed of the indentation. *)
Definition plain_char (c : ascii) : bool :=
  let n := nat_of_ascii c in
  (Nat.eqb n 10 || (Nat.leb 32 n && Nat.leb n 126))%bool.

Fixpoint plain_text (s : string) : bool :=
  match s with
  | EmptyString => true
  | String c rest => plain_char c && plain_text rest
  end.

(** ** The growing context of the remapped catalog *)

(** [next] continues [prev]: its context is the context of [prev] followed
    by the target of [prev]. *)
Definition continues (prev next : value) : Prop :=
  exists (toks : list Z) (t : Z),
    getitem prev "token_sequence" = Some (ints toks)
    /\ getitem prev "target_token" = Some (VInt t)
    /\ getitem next "token_sequence" = Some (ints (toks ++ [t])).

(** Every frame that shares its [chunk_id] with the frame before it
    continues that frame. *)
Fixpoint chained (frames : list value) : Prop :=
  match frames with
  | prev :: (next :: _) as rest =>
      (getitem prev "chunk_id" = getitem next "chunk_id" -> continues prev next)
      /\ chained rest
  | _ => True
  end.

(** * Properties *)

(** ** The frame encoder *)

Section Encoder.

Variables (source : string) (chunk start : Z) (tokens : list Z)
          (target : Z) (slots : list Z).

Lemma raw_fields :
  let frame := Raw.create_frame source chunk start tokens target slots in
  getitem frame "source_file" = Some (VStr source)
  /\ getitem frame "chunk_id" = Some (VInt chunk)
  /\ getitem frame "window_start" = Some (VInt start)
  /\ getitem frame "token_sequence" = Some (ints tokens)
  /\ getitem frame "target_token" = Some (VInt target)
  /\ getitem frame "feature_vector" = Some (ints slots)
  /\ getitem frame "context_hash" = Some (VInt 0).
Proof. repeat split. Qed.

Lemma remapped_fields :
  let frame := Remapped.create_frame source chunk start tokens target slots in
  getitem frame "source_file" = Some (VStr source)
  /\ getitem frame "chunk_id" = Some (VInt chunk)
  /\ getitem frame "window_start" = Some (VInt start)
  /\ getitem frame "token_sequence" = Some (ints tokens)
  /\ getitem frame "target_token" = Some (VInt (target mod 1000))
  /\ getitem frame "feature_vector" = Some (ints slots)
  /\ getitem frame "context_hash" = Some (VInt 0).
Proof. repeat split. Qed.

(** Both encoders write the seven keys in the order of the data model. *)
Lemma frame_keys :
  keys (Raw.create_frame source chunk start tokens target slots)
  = ["source_file"; "chunk_id"; "window_start"; "token_sequence";
     "target_token"; "feature_vector"; "context_hash"]
  /\ keys (Remapped.create_frame source chunk start tokens target slots)
     = keys (Raw.create_frame source chunk start tokens target slots).
Proof. split; reflexivity. Qed.

End Encoder.

Lemma vlen_ints (l : list Z) : vlen (ints l) = Some (len l).
Proof. unfold ints, vlen, len. now rewrite length_map. Qed.

(** C1.  In Remapped mode, for every non-negative [target], the frame made
    by [create_frame] has [target_token] equal to [target mod 1000], which
    lies in [0, 999]; [target = 1917] gives 917 and [target = 0] gives 0. *)
Theorem remapped_target_token :
  forall source chunk start tokens target slots,
    0 <= target ->
    getitem (Remapped.create_frame source chunk start tokens target slots)
            "target_token" = Some (VInt (target mod 1000))
    /\ 0 <= target mod 1000 <= 999
    /\ getitem (Remapped.create_frame source chunk start tokens 1917 slots)
               "target_token" = Some (VInt 917)
    /\ getitem (Remapped.create_frame source chunk start tokens 0 slots)
               "target_token" = Some (VInt 0).
Proof.
  intros source chunk start tokens target slots Hpos.
  split; [reflexivity|].
  split; [|split; reflexivity].
  pose proof (Z.mod_pos_bound target 1000). lia.
Qed.

Lemma remapped_target_token_witness :
  getitem (Remapped.create_frame "demo.txt" 1 0 [9906] 60836 (list_mul [0] 12))
          "target_token" = Some (VInt (60836 mod 1000))
  /\ 0 <= 60836 mod 1000 <= 999
  /\ getitem (Remapped.create_frame "demo.txt" 1 0 [9906] 1917 (list_mul [0] 12))
             "target_token" = Some (VInt 917)
  /\ getitem (Remapped.create_frame "demo.txt" 1 0 [9906] 0 (list_mul [0] 12))
             "target_token" = Some (VInt 0).
Proof.
  apply (remapped_target_token "demo.txt" 1 0 [9906] 60836 (list_mul [0] 12)).
  lia.
Defined.

(** C2.  In Raw mode, for every non-negative [target], the frame made by
    [create_frame] carries [target] itself as [target_token], and its
    [token_sequence] and [feature_vector] are the sequences passed in, element
    for element. *)
Theorem raw_copies_inputs :
  forall source chunk start tokens target slots,
    0 <= target ->
    getitem (Raw.create_frame source chunk start tokens target slots)
            "target_token" = Some (VInt target)
    /\ getitem (Raw.create_frame source chunk start tokens target slots)
               "token_sequence" = Some (VList (List.map VInt tokens))
    /\ getitem (Raw.create_frame source chunk start tokens target slots)
               "feature_vector" = Some (VList (List.map VInt slots)).
Proof.
  intros source chunk start tokens target slots _.
  pose proof (raw_fields source chunk start tokens target slots) as H.
  cbv zeta in H. unfold ints in H. tauto.
Qed.

Lemma raw_copies_inputs_witness :
  getitem (Raw.create_frame "demo.txt" 10 0 [59175] 1917 (list_mul [0] 12))
          "target_token" = Some (VInt 1917)
  /\ getitem (Raw.create_frame "demo.txt" 10 0 [59175] 1917 (list_mul [0] 12))
             "token_sequence" = Some (VList (List.map VInt [59175]))
  /\ getitem (Raw.create_frame "demo.txt" 10 0 [59175] 1917 (list_mul [0] 12))
             "feature_vector" = Some (VList (List.map VInt (list_mul [0] 12))).
Proof.
  apply (raw_copies_inputs "demo.txt" 10 0 [59175] 1917 (list_mul [0] 12)).
  lia.
Defined.

(** C5.  Whatever the arguments, in Raw and in Remapped mode, the frame made
    by [create_frame] has [context_hash] equal to 0. *)
Theorem context_hash_zero :
  forall source chunk start tokens target slots,
    getitem (Raw.create_frame source chunk start tokens target slots)
            "context_hash" = Some (VInt 0)
    /\ getitem (Remapped.create_frame source chunk start tokens target slots)
               "context_hash" = Some (VInt 0).
Proof. intros. split; reflexivity. Qed.

(** ** The catalogs and the frame lists *)

(** Each script appends one frame per catalog entry, in catalog order. *)
Lemma raw_frames_catalog : Raw.frames = List.map Raw.encode Raw.catalog.
Proof. reflexivity. Qed.

Lemma remapped_frames_catalog :
  Remapped.frames = List.map Remapped.encode Remapped.catalog.
Proof. reflexivity. Qed.

(** Goals of the shape [Forall P l] on a literal list [l]: one goal per
    element. *)
Ltac each_element :=
  rewrite ?raw_frames_catalog, ?remapped_frames_catalog;
  unfold Raw.catalog, Remapped.catalog; cbn [List.map List.app];
  repeat first [apply List.Forall_nil | apply List.Forall_cons].

(** Goals of the shape [Exists P l] on a literal list [l], for a [P] that
    holds by computation: the first element that has it. *)
Ltac find_element :=
  repeat first [apply List.Exists_cons_hd; reflexivity | apply List.Exists_cons_tl].

(** C4.  For every entry of either catalog, the encoded frame's
    [feature_vector] has length exactly 12. *)
Theorem feature_vector_length :
  Forall (fun e => getitem (Raw.encode e) "feature_vector" ≫= vlen = Some 12)
         Raw.catalog
  /\ Forall (fun e => getitem (Remapped.encode e) "feature_vector" ≫= vlen = Some 12)
            Remapped.catalog.
Proof. split; each_element; reflexivity. Qed.

(** C6.  Every frame emitted by either generator satisfies the field
    invariants of the data model: [source_file] is a non-empty string,
    [chunk_id >= 1], [window_start >= 0] and [token_sequence] is non-empty. *)
Theorem emitted_frames_invariants :
  Forall frame_invariants Raw.frames /\ Forall frame_invariants Remapped.frames.
Proof.
  split; each_element;
    (cbv [Raw.encode Remapped.encode source chunk start tokens target slots];
     eexists _, _, _, _;
     split_and!; [reflexivity | discriminate | reflexivity | lia
                 | reflexivity | lia | reflexivity | discriminate]).
Qed.

(** C7.  The catalog entries use [token_sequence] lengths 1 through 4: no
    entry is shorter or longer, and each of the four lengths occurs (among
    the entries of the two catalogs, and among those of the remapped catalog
    alone); and the encoder, in either mode, stores the sequence it is given
    element for element, so with its length unchanged, whatever that length
    is. *)
Theorem token_sequence_lengths_preserved :
  Forall (fun e => 1 <= len (tokens e) <= 4) (Raw.catalog ++ Remapped.catalog)
  /\ Forall (fun n => Exists (fun e => len (tokens e) = n)
                             (Raw.catalog ++ Remapped.catalog))
            [1; 2; 3; 4]
  /\ Forall (fun n => Exists (fun e => len (tokens e) = n) Remapped.catalog)
            [1; 2; 3; 4]
  /\ (forall source chunk start toks target slots,
        getitem (Raw.create_frame source chunk start toks target slots)
                "token_sequence" = Some (VList (List.map VInt toks))
        /\ getitem (Remapped.create_frame source chunk start toks target slots)
                   "token_sequence" = Some (VList (List.map VInt toks))
        /\ getitem (Raw.create_frame source chunk start toks target slots)
                   "token_sequence" ≫= vlen = Some (len toks)
        /\ getitem (Remapped.create_frame source chunk start toks target slots)
                   "token_sequence" ≫= vlen = Some (len toks)).
Proof.
  split; [|split; [|split]].
  - each_element; vm_compute; split; discriminate.
  - each_element; find_element.
  - each_element; find_element.
  - intros. repeat split; simpl; apply vlen_ints.
Qed.

(** C8.  The raw-mode end-to-end scenario: the catalog entry with
    [token_sequence = [9906]], [target = 1917] and twelve zero feature slots
    is encoded to exactly the frame with source_file "demo.txt", chunk_id 1,
    window_start 0, token_sequence [9906], target_token 1917, twelve zeros as
    feature_vector and context_hash 0, keys in this order, which is what the
    JSON text of the scenario reads as.  It is the first entry of the raw
    catalog and the first frame the raw script emits. *)
Theorem raw_scenario :
  Raw.create_frame "demo.txt" 1 0 [9906] 1917 (list_mul [0] 12) = scenario_frame
  /\ List.map Raw.encode (List.firstn 1 Raw.catalog) = [scenario_frame]
  /\ List.firstn 1 Raw.frames = [scenario_frame]
  /\ Json.loads scenario_text = Some scenario_frame.
Proof. repeat split. Qed.

(** C10.  In the remapped-mode generator every integer in every emitted
    frame's [token_sequence] already lies in [0, 999], although the encoder
    reduces only the target modulo 1000 and stores the context tokens as
    given: a context token such as 9906 would be emitted as 9906. *)
Theorem remapped_context_tokens_in_window :
  Forall (tokens_within 0 999) Remapped.frames
  /\ (forall source chunk start toks target slots,
        getitem (Remapped.create_frame source chunk start toks target slots)
                "token_sequence" = Some (VList (List.map VInt toks)))
  /\ ~ tokens_within 0 999
         (Remapped.create_frame "demo.txt" 1 0 [9906] 1917 (list_mul [0] 12)).
Proof.
  split; [|split].
  - each_element;
      (cbv [Remapped.encode source chunk start tokens target slots];
       eexists; split; [reflexivity | each_element; lia]).
  - reflexivity.
  - intros (toks & Hget & Hall).
    injection Hget as Hget.
    destruct toks as [|t [|t' toks]]; try discriminate Hget.
    injection Hget as <-. inversion Hall as [|t l Ht _]. lia.
Qed.

(** ** The output step *)

Lemma raw_main_output_step (w : world) :
  Raw.main w
  = output_step (Json.dump (VList Raw.frames) 2)
      (fun out_path => "Generated " +:+ Json.int_repr (len Raw.frames)
                       +:+ " robust demo frames in " +:+ out_path) w.
Proof. reflexivity. Qed.

Lemma remapped_main_output_step (w : world) :
  Remapped.main w
  = output_step (Json.dump (VList Remapped.frames) 2)
      (fun out_path => "Generated " +:+ Json.int_repr (len Remapped.frames)
                       +:+ " demo frames in " +:+ out_path) w.
Proof. reflexivity. Qed.

Lemma length_append (s1 s2 : string) :
  String.length (s1 +:+ s2) = (String.length s1 + String.length s2)%nat.
Proof. induction s1 as [|c s1 IH]; simpl; [reflexivity | now rewrite IH]. Qed.

(** Every path of a chain is no longer than the whole path. *)
Lemma chain_length (rest pre p : string) :
  In p (chain pre rest) ->
  (String.length p <= String.length pre + String.length rest)%nat.
Proof.
  revert pre. induction rest as [|c rest IH]; intros pre Hin.
  - simpl in Hin. destruct pre as [|c' pre']; [destruct Hin|].
    destruct (ends_with_slash (String c' pre')); simpl in Hin; [tauto|].
    destruct Hin as [<- | []]. lia.
  - cbn [chain] in Hin. apply in_app_or in Hin. destruct Hin as [Hin | Hin].
    + destruct (Ascii.eqb c "/"); [|destruct Hin].
      destruct pre as [|c' pre']; [destruct Hin|].
      destruct (ends_with_slash (String c' pre')); simpl in Hin; [tauto|].
      destruct Hin as [<- | []]. simpl. lia.
    + apply IH in Hin. rewrite length_append in Hin. simpl in *. lia.
Qed.

(** The output file lies strictly below the output directory. *)
Lemma path_join_longer (a : string) :
  (String.length a < String.length (path_join a "training_frames.json"))%nat.
Proof.
  unfold path_join. cbn match. destruct a as [|c a]; [simpl; lia|].
  destruct (ends_with_slash (String c a)); rewrite !length_append; simpl; lia.
Qed.

Lemma out_path_not_in_chain (dir : string) :
  path_join dir "training_frames.json" ∉ chain EmptyString dir.
Proof.
  intros Hin. apply list_elem_of_In, chain_length in Hin.
  pose proof (path_join_longer dir).
  change (String.length EmptyString) with 0%nat in Hin. lia.
Qed.

(** What one [mkdir] leaves behind. *)
Lemma mkdir_exist_ok_lookup leaf (fs fs' : gmap string node) p q :
  mkdir_exist_ok leaf fs p = Ok fs' ->
  fs' !! q = if decide (q = p) then Some Dir else fs !! q.
Proof.
  unfold mkdir_exist_ok. destruct (fs !! p) as [[|content]|] eqn:Hp; intros H.
  - injection H as <-. case_decide; congruence.
  - discriminate.
  - injection H as <-. case_decide.
    + subst q. apply lookup_insert_eq.
    + now apply lookup_insert_ne.
Qed.

(** After [makedirs] every directory of the chain is there, and nothing else
    has changed. *)
Lemma mkdirs_lookup leaf ps : forall (fs fs' : gmap string node) q,
  mkdirs leaf ps fs = Ok fs' ->
  fs' !! q = if decide (q ∈ ps) then Some Dir else fs !! q.
Proof.
  induction ps as [|p ps IH]; intros fs fs' q H; simpl in H.
  - injection H as <-. rewrite decide_False; [reflexivity | apply not_elem_of_nil].
  - destruct (mkdir_exist_ok leaf fs p) as [fs1|e] eqn:Hstep; [|discriminate].
    simpl in H. rewrite (IH _ _ q H).
    rewrite (mkdir_exist_ok_lookup _ _ _ _ q Hstep).
    destruct (decide (q ∈ ps)), (decide (q = p)), (decide (q ∈ p :: ps));
      try reflexivity; pose proof (elem_of_cons ps q p); tauto.
Qed.

(** [makedirs] over directories that are all there changes nothing. *)
Lemma mkdirs_present leaf ps : forall fs : gmap string node,
  (forall p, p ∈ ps -> fs !! p = Some Dir) ->
  mkdirs leaf ps fs = Ok fs.
Proof.
  induction ps as [|p ps IH]; intros fs Hall; simpl; [reflexivity|].
  unfold mkdir_exist_ok. rewrite (Hall p); [|left]. simpl.
  apply IH. intros q Hq. apply Hall. now right.
Qed.

Section OutputStep.

Variables (text : string) (summary : string -> string).

Let out_dir (w : world) := expanduser w "~/.local/share/hasher/data/frames".
Let out_path (w : world) := path_join (out_dir w) "training_frames.json".

(** A run that raises nothing leaves [text], and only [text], in the output
    file, prints the summary line, and does this whatever the world was. *)
Lemma output_step_ok (w w' : world) :
  output_step text summary w = Ok w' ->
  exists fs1,
    mkdirs (out_dir w) (chain EmptyString (out_dir w)) (fs w) = Ok fs1
    /\ fs w' = <[out_path w := File text]> fs1
    /\ home w' = home w
    /\ stdout w' = stdout w ++ [summary (out_path w)].
Proof.
  unfold output_step, makedirs. fold (out_dir w). fold (out_path w).
  destruct (mkdirs (out_dir w) (chain EmptyString (out_dir w)) (fs w))
    as [fs1|e] eqn:Hmk; [|discriminate].
  cbn [bind]. unfold open_w. cbn [fs home stdout].
  intros H. exists fs1. split; [reflexivity|].
  assert (w' = print (summary (out_path w))
                 (write (out_path w) text
                    (World (home w) (<[out_path w := File EmptyString]> fs1) (stdout w))))
    as ->.
  { destruct (fs1 !! out_path w) as [[|content]|]; cbn [bind] in H;
      try discriminate; now injection H as <-. }
  unfold print, write. cbn [fs home stdout].
  rewrite lookup_insert_eq. cbn [fs home stdout].
  rewrite insert_insert_eq. auto.
Qed.

Lemma output_step_read (w w' : world) :
  output_step text summary w = Ok w' ->
  read w' (out_path w) = Some text.
Proof.
  intros H. destruct (output_step_ok w w' H) as (fs1 & _ & Hfs & _).
  unfold read. rewrite Hfs, lookup_insert_eq. reflexivity.
Qed.

(** Running the step again, right after a run that raised nothing, raises
    nothing either, leaves the file system as it is and prints the same
    summary line once more. *)
Lemma output_step_again (w w' : world) :
  output_step text summary w = Ok w' ->
  exists w'',
    output_step text summary w' = Ok w''
    /\ fs w'' = fs w'
    /\ stdout w'' = stdout w' ++ [summary (out_path w)].
Proof.
  intros H. destruct (output_step_ok w w' H) as (fs1 & Hmk & Hfs & Hhome & Hout).
  assert (Hdir : out_dir w' = out_dir w).
  { unfold out_dir, expanduser. now rewrite Hhome. }
  assert (Hmk' : mkdirs (out_dir w) (chain EmptyString (out_dir w)) (fs w') = Ok (fs w')).
  { apply mkdirs_present. intros p Hp. rewrite Hfs.
    rewrite lookup_insert_ne.
    - rewrite (mkdirs_lookup _ _ _ _ p Hmk). now rewrite decide_True.
    - intros <-. now apply (out_path_not_in_chain (out_dir w)). }
  exists (print (summary (out_path w)) w').
  split; [|split; reflexivity].
  unfold output_step, makedirs. fold (out_dir w'). rewrite Hdir. fold (out_path w).
  rewrite Hmk'. cbn [bind]. unfold open_w. cbn [fs home stdout].
  rewrite Hfs at 1. rewrite lookup_insert_eq. cbn [bind].
  unfold write, print. cbn [fs home stdout].
  rewrite lookup_insert_eq. cbn [fs home stdout].
  rewrite insert_insert_eq. simpl. rewrite Hfs, insert_insert_eq.
  destruct w' as [h f o]. cbn in *. subst. reflexivity.
Qed.

End OutputStep.

(** ** The documents *)

(** Reading either document back gives the frame list it was dumped from. *)
Lemma raw_document_loads :
  Json.loads (Json.dump (VList Raw.frames) 2) = Some (VList Raw.frames).
Proof. vm_compute. reflexivity. Qed.

Lemma remapped_document_loads :
  Json.loads (Json.dump (VList Remapped.frames) 2) = Some (VList Remapped.frames).
Proof. vm_compute. reflexivity. Qed.

Lemma raw_main_read (w w' : world) :
  Raw.main w = Ok w' ->
  read w' (Raw.out_path w) = Some (Json.dump (VList Raw.frames) 2).
Proof. rewrite raw_main_output_step. apply output_step_read. Qed.

Lemma remapped_main_read (w w' : world) :
  Remapped.main w = Ok w' ->
  read w' (Remapped.out_path w) = Some (Json.dump (VList Remapped.frames) 2).
Proof. rewrite remapped_main_output_step. apply output_step_read. Qed.

(** On a disk with nothing in the way both scripts run to their end. *)
Lemma raw_main_fresh : exists w', Raw.main fresh_world = Ok w'.
Proof. eexists. vm_compute. reflexivity. Defined.

Lemma remapped_main_fresh : exists w', Remapped.main fresh_world = Ok w'.
Proof. eexists. vm_compute. reflexivity. Defined.

(** C3.  For each generator, the catalog has N entries (10 for the raw-mode
    generator, 5 for the remapped-mode one) and the text a run leaves in the
    output file is a JSON array with exactly N elements, the i-th of them the
    frame encoded from the i-th catalog entry. *)
Theorem output_array_follows_catalog :
  (len Raw.catalog = 10
   /\ forall w w', Raw.main w = Ok w' ->
        exists text elems,
          read w' (Raw.out_path w) = Some text
          /\ Json.loads text = Some (VList elems)
          /\ len elems = len Raw.catalog
          /\ elems = List.map Raw.encode Raw.catalog)
  /\ (len Remapped.catalog = 5
      /\ forall w w', Remapped.main w = Ok w' ->
           exists text elems,
             read w' (Remapped.out_path w) = Some text
             /\ Json.loads text = Some (VList elems)
             /\ len elems = len Remapped.catalog
             /\ elems = List.map Remapped.encode Remapped.catalog).
Proof.
  split; (split; [reflexivity|]); intros w w' Hrun.
  - exists (Json.dump (VList Raw.frames) 2), Raw.frames.
    split; [now apply raw_main_read|].
    split; [apply raw_document_loads|]. split; reflexivity.
  - exists (Json.dump (VList Remapped.frames) 2), Remapped.frames.
    split; [now apply remapped_main_read|].
    split; [apply remapped_document_loads|]. split; reflexivity.
Qed.

Lemma output_array_follows_catalog_witness :
  (exists w' text elems,
     Raw.main fresh_world = Ok w'
     /\ read w' (Raw.out_path fresh_world) = Some text
     /\ Json.loads text = Some (VList elems)
     /\ len elems = 10)
  /\ (exists w' text elems,
        Remapped.main fresh_world = Ok w'
        /\ read w' (Remapped.out_path fresh_world) = Some text
        /\ Json.loads text = Some (VList elems)
        /\ len elems = 5).
Proof.
  destruct output_array_follows_catalog as [[Hn Hraw] [Hm Hrem]].
  split.
  - destruct raw_main_fresh as [w' Hrun].
    destruct (Hraw fresh_world w' Hrun) as (text & elems & Hread & Hloads & Hlen & _).
    exists w', text, elems. rewrite Hn in Hlen. auto.
  - destruct remapped_main_fresh as [w' Hrun].
    destruct (Hrem fresh_world w' Hrun) as (text & elems & Hread & Hloads & Hlen & _).
    exists w', text, elems. rewrite Hm in Hlen. auto.
Defined.

(** C9.  Generation and serialization are deterministic.  The frame list of
    each script is a closed value: nothing of the world enters it.  Any two
    runs of a generator, from whatever worlds, leave byte-identical JSON in
    the output file, and that text reads back as the script's frame list in
    its order; and a second run right after a first one runs to its end too,
    leaves the file system as it was and the file with the same bytes. *)
Theorem generation_deterministic :
  (forall w1 w2 w1' w2',
     Raw.main w1 = Ok w1' -> Raw.main w2 = Ok w2' ->
     exists text,
       read w1' (Raw.out_path w1) = Some text
       /\ read w2' (Raw.out_path w2) = Some text
       /\ Json.loads text = Some (VList Raw.frames))
  /\ (forall w w',
        Raw.main w = Ok w' ->
        exists w'',
          Raw.main w' = Ok w'' /\ fs w'' = fs w'
          /\ read w'' (Raw.out_path w') = read w' (Raw.out_path w))
  /\ (forall w1 w2 w1' w2',
        Remapped.main w1 = Ok w1' -> Remapped.main w2 = Ok w2' ->
        exists text,
          read w1' (Remapped.out_path w1) = Some text
          /\ read w2' (Remapped.out_path w2) = Some text
          /\ Json.loads text = Some (VList Remapped.frames))
  /\ (forall w w',
        Remapped.main w = Ok w' ->
        exists w'',
          Remapped.main w' = Ok w'' /\ fs w'' = fs w'
          /\ read w'' (Remapped.out_path w') = read w' (Remapped.out_path w)).
Proof.
  split; [|split; [|split]].
  - intros w1 w2 w1' w2' H1 H2. eexists.
    split; [apply (raw_main_read _ _ H1)|].
    split; [apply (raw_main_read _ _ H2) | apply raw_document_loads].
  - intros w w' H.
    pose proof H as Hagain. rewrite raw_main_output_step in Hagain.
    apply output_step_again in Hagain. destruct Hagain as (w'' & Hrun & Hfs & _).
    rewrite <- raw_main_output_step in Hrun.
    exists w''. split; [exact Hrun|]. split; [exact Hfs|].
    now rewrite (raw_main_read _ _ Hrun), (raw_main_read _ _ H).
  - intros w1 w2 w1' w2' H1 H2. eexists.
    split; [apply (remapped_main_read _ _ H1)|].
    split; [apply (remapped_main_read _ _ H2) | apply remapped_document_loads].
  - intros w w' H.
    pose proof H as Hagain. rewrite remapped_main_output_step in Hagain.
    apply output_step_again in Hagain. destruct Hagain as (w'' & Hrun & Hfs & _).
    rewrite <- remapped_main_output_step in Hrun.
    exists w''. split; [exact Hrun|]. split; [exact Hfs|].
    now rewrite (remapped_main_read _ _ Hrun), (remapped_main_read _ _ H).
Qed.

Lemma generation_deterministic_witness :
  (exists w1 w2 text,
     Raw.main fresh_world = Ok w1 /\ Raw.main w1 = Ok w2
     /\ read w1 (Raw.out_path fresh_world) = Some text
     /\ read w2 (Raw.out_path w1) = Some text
     /\ Json.loads text = Some (VList Raw.frames)
     /\ fs w2 = fs w1)
  /\ (exists w1 w2 text,
        Remapped.main fresh_world = Ok w1 /\ Remapped.main w1 = Ok w2
        /\ read w1 (Remapped.out_path fresh_world) = Some text
        /\ read w2 (Remapped.out_path w1) = Some text
        /\ Json.loads text = Some (VList Remapped.frames)
        /\ fs w2 = fs w1).
Proof.
  destruct generation_deterministic as (Hraw & Hraw2 & Hrem & Hrem2).
  split.
  - destruct raw_main_fresh as [w1 H1].
    destruct (Hraw2 fresh_world w1 H1) as (w2 & H2 & Hfs & _).
    destruct (Hraw fresh_world w1 w1 w2 H1 H2) as (text & Hr1 & Hr2 & Hloads).
    exists w1, w2, text. auto 10.
  - destruct remapped_main_fresh as [w1 H1].
    destruct (Hrem2 fresh_world w1 H1) as (w2 & H2 & Hfs & _).
    destruct (Hrem fresh_world w1 w1 w2 H1 H2) as (text & Hr1 & Hr2 & Hloads).
    exists w1, w2, text. auto 10.
Defined.
(** * Further properties of the encoders *)

Lemma map_VInt_inj (l l' : list Z) : List.map VInt l = List.map VInt l' -> l = l'.
Proof.
  revert l'. induction l as [|x l IH]; intros [|y l'] H; simpl in H;
    try discriminate; [reflexivity|].
  injection H as -> H. f_equal. now apply IH.
Qed.

Lemma list_mul_singleton_length {A} (x : A) (n : Z) :
  len (list_mul [x] n) = Z.max 0 n.
Proof.
  unfold len, list_mul.
  assert (H : forall k, List.length (List.concat (List.repeat [x] k)) = k).
  { induction k as [|k IH]; simpl; [reflexivity | now rewrite IH]. }
  rewrite H. lia.
Qed.

(** X1.  In Remapped mode the stored [target_token] lies in [0, 999] for
    every integer [target], a negative one included: [%] takes the sign of
    the divisor, so [-1] is stored as 999 and [-1000] as 0. *)
Theorem remapped_target_token_any_sign :
  forall source chunk start tokens target slots,
    exists t,
      getitem (Remapped.create_frame source chunk start tokens target slots)
              "target_token" = Some (VInt t)
      /\ 0 <= t <= 999
      /\ (exists q, target = 1000 * q + t)
      /\ getitem (Remapped.create_frame source chunk start tokens (-1) slots)
                 "target_token" = Some (VInt 999)
      /\ getitem (Remapped.create_frame source chunk start tokens (-1000) slots)
                 "target_token" = Some (VInt 0).
Proof.
  intros source chunk start tokens target slots.
  exists (target mod 1000). split; [reflexivity|].
  split; [pose proof (Z.mod_pos_bound target 1000); lia|].
  split; [|split; reflexivity].
  exists (target / 1000). apply Z.div_mod. discriminate.
Qed.

(** X2.  The two encoders build the same frame from the same arguments
    exactly when the target already lies in [0, 999]. *)
Theorem encoders_agree_iff_target_in_window :
  forall source chunk start tokens target slots,
    Raw.create_frame source chunk start tokens target slots
    = Remapped.create_frame source chunk start tokens target slots
    <-> 0 <= target <= 999.
Proof.
  intros source chunk start tokens target slots. split.
  - intros H. injection H as H.
    pose proof (Z.mod_pos_bound target 1000). unfold mod_ in H. lia.
  - intros H. unfold Raw.create_frame, Remapped.create_frame, mod_.
    rewrite Z.mod_small by lia. reflexivity.
Qed.

(** X3.  The raw encoder loses nothing: two calls give the same frame only
    if all six arguments are the same. *)
Theorem raw_create_frame_injective :
  forall s c st toks tg sl s' c' st' toks' tg' sl',
    Raw.create_frame s c st toks tg sl = Raw.create_frame s' c' st' toks' tg' sl' ->
    s = s' /\ c = c' /\ st = st' /\ toks = toks' /\ tg = tg' /\ sl = sl'.
Proof.
  intros s c st toks tg sl s' c' st' toks' tg' sl' H.
  injection H as Hs Hc Hst Htoks Htg Hsl.
  apply map_VInt_inj in Htoks. apply map_VInt_inj in Hsl. auto 10.
Qed.

Lemma raw_create_frame_injective_witness :
  "demo.txt" = "demo.txt" /\ 4 = 4 /\ 0 = 0 /\ [6504; 261] = [6504; 261]
  /\ 1917 = 1917 /\ list_mul [0] 12 = list_mul [0] 12.
Proof.
  apply (raw_create_frame_injective "demo.txt" 4 0 [6504; 261] 1917 (list_mul [0] 12)
           "demo.txt" 4 0 [6504; 261] 1917 (list_mul [0] 12)).
  reflexivity.
Defined.

(** X4.  The remapped encoder forgets the target up to a multiple of 1000
    and nothing else: two calls give the same frame exactly when they agree
    on the other five arguments and their targets are congruent modulo 1000.
    So the raw ids 1917 and 917 give one and the same frame. *)
Theorem remapped_create_frame_collisions :
  forall s c st toks tg sl s' c' st' toks' tg' sl',
    Remapped.create_frame s c st toks tg sl
    = Remapped.create_frame s' c' st' toks' tg' sl'
    <-> s = s' /\ c = c' /\ st = st' /\ toks = toks'
        /\ tg mod 1000 = tg' mod 1000 /\ sl = sl'.
Proof.
  intros s c st toks tg sl s' c' st' toks' tg' sl'. split.
  - intros H. injection H as Hs Hc Hst Htoks Htg Hsl.
    apply map_VInt_inj in Htoks. apply map_VInt_inj in Hsl. auto 10.
  - intros (-> & -> & -> & -> & Htg & ->).
    unfold Remapped.create_frame, mod_. now rewrite Htg.
Qed.

(** X5.  A frame of either encoder has exactly the seven keys of the data
    model, each once and in the model's order; looking up any other key
    fails. *)
Theorem frame_shape :
  forall source chunk start tokens target slots frame,
    frame = Raw.create_frame source chunk start tokens target slots
    \/ frame = Remapped.create_frame source chunk start tokens target slots ->
    keys frame = frame_keys_list
    /\ NoDup (keys frame)
    /\ (forall k, getitem frame k = None <-> ~ In k frame_keys_list).
Proof.
  intros source chunk start tokens target slots frame Hframe.
  assert (Hkeys : keys frame = frame_keys_list) by (destruct Hframe; subst; reflexivity).
  split; [exact Hkeys|]. split.
  - rewrite Hkeys. unfold frame_keys_list.
    apply (bool_decide_unpack _). vm_compute. exact I.
  - intros k. unfold frame_keys_list. split.
    + intros H Hin. simpl in Hin.
      repeat (destruct Hin as [<- | Hin];
              [destruct Hframe; subst frame; discriminate H|]).
      destruct Hin.
    + intros Hn.
      destruct Hframe; subst frame;
        cbn [getitem Raw.create_frame Remapped.create_frame lookup_items];
        repeat match goal with
               | |- context [String.eqb k ?key] =>
                   destruct (String.eqb_spec k key) as [Hk|_];
                   [exfalso; apply Hn; rewrite Hk; simpl; auto 10|]
               end;
        reflexivity.
Qed.

Lemma frame_shape_witness :
  keys (Remapped.create_frame "demo.txt" 2 0 [923; 374] 701 (list_mul [0] 12))
  = frame_keys_list
  /\ NoDup (keys (Remapped.create_frame "demo.txt" 2 0 [923; 374] 701 (list_mul [0] 12)))
  /\ (forall k,
        getitem (Remapped.create_frame "demo.txt" 2 0 [923; 374] 701 (list_mul [0] 12)) k
        = None <-> ~ In k frame_keys_list).
Proof.
  apply (frame_shape "demo.txt" 2 0 [923; 374] 701 (list_mul [0] 12)).
  right. reflexivity.
Defined.

(** X6.  The encoders neither check nor repair their arguments: the frame
    meets the field invariants of the data model exactly when the arguments
    do (non-empty source, chunk at least 1, window start at least 0, at least
    one context token). *)
Theorem frame_invariants_iff_arguments :
  forall source chunk start tokens target slots,
    (frame_invariants (Raw.create_frame source chunk start tokens target slots)
     <-> source <> EmptyString /\ 1 <= chunk /\ 0 <= start /\ tokens <> [])
    /\ (frame_invariants (Remapped.create_frame source chunk start tokens target slots)
        <-> source <> EmptyString /\ 1 <= chunk /\ 0 <= start /\ tokens <> []).
Proof.
  intros source chunk start tokens target slots.
  split; (split;
    [ intros (s & c & ws & toks & Hs & Hne & Hc & Hge & Hws & Hpos & Htoks & Hnil);
      cbn in Hs, Hc, Hws, Htoks;
      injection Hs as <-; injection Hc as <-; injection Hws as <-;
      injection Htoks as Htoks; apply map_VInt_inj in Htoks; subst toks; auto
    | intros (Hne & Hge & Hpos & Hnil);
      exists source, chunk, start, tokens; cbn; auto 10 ]).
Qed.

(** X7.  The feature vector is stored at whatever length it comes: slots
    built as [[x] * n] give a vector of [n] entries ([0] entries for a
    negative [n]), in either mode; nothing pads or cuts it to 12. *)
Theorem feature_vector_length_follows_slots :
  forall source chunk start tokens target slots x n,
    getitem (Raw.create_frame source chunk start tokens target slots)
            "feature_vector" ≫= vlen = Some (len slots)
    /\ getitem (Remapped.create_frame source chunk start tokens target slots)
               "feature_vector" ≫= vlen = Some (len slots)
    /\ getitem (Raw.create_frame source chunk start tokens target (list_mul [x] n))
               "feature_vector" ≫= vlen = Some (Z.max 0 n)
    /\ getitem (Remapped.create_frame source chunk start tokens target (list_mul [x] n))
               "feature_vector" ≫= vlen = Some (Z.max 0 n).
Proof.
  intros. cbn [getitem Raw.create_frame Remapped.create_frame lookup_items String.eqb Ascii.eqb Bool.eqb mbind option_bind].
  rewrite !vlen_ints, list_mul_singleton_length. auto.
Qed.

(** * Further properties of the output step *)

Lemma rstrip_slash_snoc (h : string) : rstrip_slash (h +:+ "/") = rstrip_slash h.
Proof. induction h as [|c h IH]; simpl; [reflexivity | now rewrite IH]. Qed.

Lemma ends_with_slash_append (x y : string) :
  y <> EmptyString -> ends_with_slash (x +:+ y) = ends_with_slash y.
Proof.
  intros Hy. induction x as [|c x IH]; simpl; [reflexivity|].
  rewrite IH. destruct (x +:+ y) eqn:E; [|reflexivity].
  destruct x; simpl in E; [contradiction | discriminate].
Qed.

Lemma expanduser_frames (w : world) :
  expanduser w "~/.local/share/hasher/data/frames"
  = rstrip_slash (home w) +:+ "/.local/share/hasher/data/frames".
Proof.
  unfold expanduser. destruct (rstrip_slash (home w)); reflexivity.
Qed.

(** [makedirs] raises exactly when a regular file sits at one of the paths
    of the chain. *)
Lemma mkdirs_ok_iff leaf ps : forall fs : gmap string node,
  (exists fs', mkdirs leaf ps fs = Ok fs') <-> no_file_at ps fs.
Proof.
  induction ps as [|p ps IH]; intros fs.
  - split; [intros _ q c Hq; inversion Hq | intros _; now exists fs].
  - cbn [mkdirs]. unfold mkdir_exist_ok.
    destruct (fs !! p) as [[|content]|] eqn:Hp; cbn [bind].
    + rewrite IH. split.
      * intros H q c Hq. apply elem_of_cons in Hq as [->|Hq]; [congruence | now apply H].
      * intros H q c Hq. apply H. now right.
    + split; [intros [fs' H]; discriminate|].
      intros H. exfalso. apply (H p content); [left | exact Hp].
    + rewrite IH. split.
      * intros H q c Hq. apply elem_of_cons in Hq as [->|Hq]; [congruence|].
        intros Hfile. apply (H q c Hq).
        destruct (decide (q = p)) as [->|Hne]; [congruence|].
        now rewrite lookup_insert_ne.
      * intros H q c Hq.
        destruct (decide (q = p)) as [->|Hne].
        -- rewrite lookup_insert_eq. discriminate.
        -- rewrite lookup_insert_ne by congruence. apply H. now right.
Qed.

(** When [makedirs] raises, the exception tells where the file was: at the
    leaf for [FileExistsError], at another path of the chain for
    [NotADirectoryError]; it never raises [IsADirectoryError]. *)
Lemma mkdirs_raise leaf ps : forall (fs : gmap string node) e,
  mkdirs leaf ps fs = Raise e ->
  match e with
  | FileExistsError => leaf ∈ ps /\ exists content, fs !! leaf = Some (File content)
  | NotADirectoryError =>
      exists p content, p ∈ ps /\ p <> leaf /\ fs !! p = Some (File content)
  | IsADirectoryError => False
  end.
Proof.
  induction ps as [|p ps IH]; intros fs e H; [discriminate|].
  cbn [mkdirs] in H. unfold mkdir_exist_ok in H.
  destruct (fs !! p) as [[|content]|] eqn:Hp; cbn [bind] in H.
  - apply IH in H. destruct e; [| |contradiction].
    + destruct H as [Hin Hfile]. split; [now right | exact Hfile].
    + destruct H as (q & c & Hq & Hne & Hfile). exists q, c. split; [now right | auto].
  - destruct (String.eqb_spec p leaf) as [->|Hne]; injection H as <-.
    + split; [left | eauto].
    + exists p, content. split; [left | auto].
  - apply IH in H. destruct e; [| |contradiction].
    + destruct H as [Hin [c Hfile]]. split; [now right|]. exists c.
      destruct (decide (leaf = p)) as [->|Hne].
      * rewrite lookup_insert_eq in Hfile. discriminate.
      * now rewrite lookup_insert_ne in Hfile by congruence.
    + destruct H as (q & c & Hq & Hne & Hfile). exists q, c.
      split; [now right|]. split; [exact Hne|].
      destruct (decide (q = p)) as [->|Hqp].
      * rewrite lookup_insert_eq in Hfile. discriminate.
      * now rewrite lookup_insert_ne in Hfile by congruence.
Qed.

Section OutputStepOutcome.

Variables (text : string) (summary : string -> string).

Let out_dir (w : world) := expanduser w "~/.local/share/hasher/data/frames".
Let out_path (w : world) := path_join (out_dir w) "training_frames.json".
Let dirs (w : world) := chain EmptyString (out_dir w).

Lemma output_step_ok_iff (w : world) :
  (exists w', output_step text summary w = Ok w')
  <-> no_file_at (dirs w) (fs w) /\ fs w !! out_path w <> Some Dir.
Proof.
  unfold output_step, makedirs. fold (out_dir w). fold (out_path w). fold (dirs w).
  pose proof (mkdirs_ok_iff (out_dir w) (dirs w) (fs w)) as Hmk.
  destruct (mkdirs (out_dir w) (dirs w) (fs w)) as [fs1|e] eqn:Hrun; cbn [bind].
  - assert (Hsame : fs1 !! out_path w = fs w !! out_path w).
    { rewrite (mkdirs_lookup _ _ _ _ (out_path w) Hrun).
      rewrite decide_False; [reflexivity | apply out_path_not_in_chain]. }
    unfold open_w. cbn [fs home stdout]. rewrite Hsame.
    split.
    + intros [w' H]. split; [apply Hmk; eauto|].
      intros Hdir. rewrite Hdir in H. discriminate.
    + intros [_ Hnd].
      destruct (fs w !! out_path w) as [[|c]|]; [contradiction| |]; cbn [bind]; eauto.
  - split; [intros [w' H]; discriminate|].
    intros [Hno _]. apply Hmk in Hno as [fs' Hfs']. discriminate.
Qed.

Lemma output_step_raise (w : world) (e : exn) :
  output_step text summary w = Raise e ->
  match e with
  | FileExistsError => exists content, fs w !! out_dir w = Some (File content)
  | NotADirectoryError =>
      exists p content,
        p ∈ dirs w /\ p <> out_dir w /\ fs w !! p = Some (File content)
  | IsADirectoryError =>
      no_file_at (dirs w) (fs w) /\ fs w !! out_path w = Some Dir
  end.
Proof.
  unfold output_step, makedirs. fold (out_dir w). fold (out_path w). fold (dirs w).
  destruct (mkdirs (out_dir w) (dirs w) (fs w)) as [fs1|e'] eqn:Hrun; cbn [bind].
  - assert (Hsame : fs1 !! out_path w = fs w !! out_path w).
    { rewrite (mkdirs_lookup _ _ _ _ (out_path w) Hrun).
      rewrite decide_False; [reflexivity | apply out_path_not_in_chain]. }
    unfold open_w. cbn [fs home stdout]. rewrite Hsame.
    destruct (fs w !! out_path w) as [[|c]|] eqn:Hp; cbn [bind]; try discriminate.
    intros H. injection H as <-. split; [|reflexivity].
    apply (mkdirs_ok_iff (out_dir w)). eauto.
  - intros H. injection H as ->. apply mkdirs_raise in Hrun.
    destruct e; [tauto | exact Hrun | contradiction].
Qed.

Lemma output_step_fs (w w' : world) :
  output_step text summary w = Ok w' ->
  forall p, fs w' !! p = fs_after (out_path w) text (dirs w) (fs w) p.
Proof.
  intros H p. destruct (output_step_ok text summary w w' H) as (fs1 & Hmk & Hfs & _).
  fold (out_dir w) in Hmk, Hfs. fold (out_path w) in Hfs. fold (dirs w) in Hmk.
  unfold fs_after. rewrite Hfs.
  destruct (decide (p = out_path w)) as [->|Hne].
  - apply lookup_insert_eq.
  - rewrite lookup_insert_ne by congruence. apply (mkdirs_lookup _ _ _ _ p Hmk).
Qed.

End OutputStepOutcome.

(** A run of the step right after a run of the step with another text:
    it raises nothing and the file holds the second text alone. *)
Lemma output_step_then (text text2 : string) (summary summary2 : string -> string)
    (w w' : world) :
  let out_path :=
    path_join (expanduser w "~/.local/share/hasher/data/frames") "training_frames.json" in
  output_step text summary w = Ok w' ->
  exists w'',
    output_step text2 summary2 w' = Ok w''
    /\ read w'' out_path = Some text2
    /\ (forall p, p <> out_path -> fs w'' !! p = fs w' !! p)
    /\ stdout w'' = stdout w ++ [summary out_path; summary2 out_path].
Proof.
  intros out_path H.
  set (out_dir := expanduser w "~/.local/share/hasher/data/frames") in *.
  set (dirs := chain EmptyString out_dir).
  destruct (output_step_ok text summary w w' H) as (fs1 & Hmk & Hfs & Hhome & Hout).
  fold out_dir in Hmk, Hfs, Hout. fold out_path in Hfs, Hout. fold dirs in Hmk.
  assert (Hdir : expanduser w' "~/.local/share/hasher/data/frames" = out_dir).
  { unfold out_dir, expanduser. now rewrite Hhome. }
  pose proof (output_step_fs text summary w w' H) as Hfs1.
  fold out_dir in Hfs1. fold out_path in Hfs1. fold dirs in Hfs1.
  assert (Hok : exists w'', output_step text2 summary2 w' = Ok w'').
  { apply output_step_ok_iff. rewrite Hdir. fold dirs. fold out_path.
    split.
    - intros p c Hp. rewrite (Hfs1 p). unfold fs_after.
      rewrite decide_False, decide_True
        by (auto; intros ->; now apply (out_path_not_in_chain out_dir)).
      discriminate.
    - rewrite Hfs, lookup_insert_eq. discriminate. }
  destruct Hok as [w'' H2]. exists w''. split; [exact H2|].
  pose proof (output_step_read text2 summary2 w' w'' H2) as Hread.
  pose proof (output_step_fs text2 summary2 w' w'' H2) as Hfs2.
  destruct (output_step_ok text2 summary2 w' w'' H2) as (_ & _ & _ & _ & Hout2).
  cbv beta zeta in Hread, Hfs2, Hout2. rewrite Hdir in Hread, Hfs2, Hout2.
  fold out_path in Hread, Hfs2, Hout2. fold dirs in Hfs2.
  split; [exact Hread|]. split.
  - intros p Hne. rewrite Hfs2. unfold fs_after. rewrite decide_False by exact Hne.
    destruct (decide (p ∈ dirs)) as [Hin|Hnin]; [|reflexivity].
    rewrite (Hfs1 p). unfold fs_after.
    now rewrite decide_False, decide_True.
  - rewrite Hout2, Hout, <- app_assoc. reflexivity.
Qed.

Lemma append_assoc (a b c : string) : (a +:+ b) +:+ c = a +:+ (b +:+ c).
Proof.
  induction a as [|x a IH]; [reflexivity|].
  change (String x ((a +:+ b) +:+ c) = String x (a +:+ (b +:+ c))).
  now rewrite IH.
Qed.

Lemma out_path_formula (w : world) :
  path_join (expanduser w "~/.local/share/hasher/data/frames") "training_frames.json"
  = rstrip_slash (home w)
    +:+ "/.local/share/hasher/data/frames/training_frames.json".
Proof.
  rewrite expanduser_frames.
  set (r := rstrip_slash (home w)).
  assert (Hend : ends_with_slash (r +:+ "/.local/share/hasher/data/frames") = false)
    by (rewrite ends_with_slash_append; [reflexivity | discriminate]).
  unfold path_join. cbn match.
  destruct (r +:+ "/.local/share/hasher/data/frames") as [|c rest] eqn:E.
  - destruct r; discriminate E.
  - rewrite Hend, <- E, append_assoc. reflexivity.
Qed.






(** X11.  A run that raised nothing prints exactly one line behind what was
    printed before: the number of frames (10 for the raw-mode script, 5 for
    the remapped-mode one), the script's wording and the output path; the
    home directory is as it was. *)
Theorem main_summary_line :
  forall w w',
    (Raw.main w = Ok w' ->
     stdout w' = stdout w ++ ["Generated 10 robust demo frames in " +:+ Raw.out_path w]
     /\ home w' = home w)
    /\ (Remapped.main w = Ok w' ->
        stdout w' = stdout w ++ ["Generated 5 demo frames in " +:+ Remapped.out_path w]
        /\ home w' = home w).
Proof.
  intros w w'. split; intros H.
  - rewrite raw_main_output_step in H.
    destruct (output_step_ok _ _ _ _ H) as (_ & _ & _ & Hhome & Hout).
    split; [exact Hout | exact Hhome].
  - rewrite remapped_main_output_step in H.
    destruct (output_step_ok _ _ _ _ H) as (_ & _ & _ & Hhome & Hout).
    split; [exact Hout | exact Hhome].
Qed.

Lemma main_summary_line_witness :
  exists w',
    Remapped.main fresh_world = Ok w'
    /\ stdout w'
       = stdout fresh_world
         ++ ["Generated 5 demo frames in " +:+ Remapped.out_path fresh_world]
    /\ home w' = home fresh_world.
Proof.
  destruct remapped_main_fresh as [w' Hrun]. exists w'. split; [exact Hrun|].
  apply (proj2 (main_summary_line fresh_world w') Hrun).
Defined.



(** X13.  The output path is the home directory, without its trailing
    slashes, followed by [/.local/share/hasher/data/frames/training_frames.json],
    for both scripts; so a home directory spelt with one more slash at its
    end gives the same path, and the home directory [/] gives the path right
    under the root. *)
Theorem out_path_under_home :
  forall w,
    Raw.out_path w
    = rstrip_slash (home w) +:+ "/.local/share/hasher/data/frames/training_frames.json"
    /\ Remapped.out_path w = Raw.out_path w
    /\ (forall w2, home w2 = home w +:+ "/" -> Raw.out_path w2 = Raw.out_path w)
    /\ (home w = "/" ->
        Raw.out_path w = "/.local/share/hasher/data/frames/training_frames.json").
Proof.
  intros w.
  assert (Hform : forall v, Raw.out_path v
           = rstrip_slash (home v)
             +:+ "/.local/share/hasher/data/frames/training_frames.json")
    by (intros v; apply out_path_formula).
  split; [apply Hform|]. split; [reflexivity|]. split.
  - intros w2 Hh. rewrite !Hform, Hh, rstrip_slash_snoc. reflexivity.
  - intros Hh. rewrite Hform, Hh. reflexivity.
Qed.

Lemma out_path_under_home_witness :
  Raw.out_path (World "/home/user/" ∅ []) = Raw.out_path fresh_world.
Proof.
  destruct (out_path_under_home fresh_world) as (_ & _ & Hslash & _).
  apply Hslash. reflexivity.
Defined.

(** * Reading a dumped document back *)

(** ** Numbers *)

Lemma append_cons (c : ascii) (s t : string) : String c s +:+ t = String c (s +:+ t).
Proof. reflexivity. Qed.

Lemma append_nil_l (t : string) : EmptyString +:+ t = t.
Proof. reflexivity. Qed.

Lemma append_nil_r (s : string) : s +:+ EmptyString = s.
Proof.
  induction s as [|c s IH]; [reflexivity|]. rewrite append_cons. now rewrite IH.
Qed.

Lemma of_uint_acc_value (d : Decimal.uint) : forall acc : positive,
  Z.pos (Pos.of_uint_acc d acc) = uint_value d (Z.pos acc).
Proof.
  induction d as [|d IH|d IH|d IH|d IH|d IH|d IH|d IH|d IH|d IH|d IH];
    intros acc; cbn [Pos.of_uint_acc uint_value]; [reflexivity|..];
    rewrite IH; f_equal; lia.
Qed.

Lemma scan_digits_cons (c : ascii) (d acc : Z) (s : string) :
  Json.digit c = Some d ->
  Json.scan_digits acc (String c s) = Json.scan_digits (10 * acc + d) s.
Proof. intros H. cbn [Json.scan_digits]. now rewrite H. Qed.

Lemma scan_digits_uint (d : Decimal.uint) : forall (acc : Z) (rest : string),
  ends_number rest = true ->
  Json.scan_digits acc (NilEmpty.string_of_uint d +:+ rest) = (uint_value d acc, rest).
Proof.
  induction d as [|d IH|d IH|d IH|d IH|d IH|d IH|d IH|d IH|d IH|d IH];
    intros acc rest Hrest; cbn [NilEmpty.string_of_uint uint_value];
    rewrite ?append_cons, ?append_nil_l.
  - destruct rest as [|c rest]; [reflexivity|].
    cbn [Json.scan_digits]. unfold ends_number in Hrest.
    destruct (Json.digit c); [discriminate | reflexivity].
  - rewrite (scan_digits_cons _ 0) by reflexivity. rewrite IH by exact Hrest.
    now rewrite Z.add_0_r.
  - rewrite (scan_digits_cons _ 1) by reflexivity. now apply IH.
  - rewrite (scan_digits_cons _ 2) by reflexivity. now apply IH.
  - rewrite (scan_digits_cons _ 3) by reflexivity. now apply IH.
  - rewrite (scan_digits_cons _ 4) by reflexivity. now apply IH.
  - rewrite (scan_digits_cons _ 5) by reflexivity. now apply IH.
  - rewrite (scan_digits_cons _ 6) by reflexivity. now apply IH.
  - rewrite (scan_digits_cons _ 7) by reflexivity. now apply IH.
  - rewrite (scan_digits_cons _ 8) by reflexivity. now apply IH.
  - rewrite (scan_digits_cons _ 9) by reflexivity. now apply IH.
Qed.

Lemma unorm_head_zero (d l : Decimal.uint) :
  Decimal.unorm d = Decimal.D0 l -> l = Decimal.Nil.
Proof.
  induction d; cbn [Decimal.unorm]; intros H; try discriminate; auto.
  now injection H as <-.
Qed.

Lemma to_uint_normal (p : positive) : Decimal.unorm (Pos.to_uint p) = Pos.to_uint p.
Proof.
  rewrite <- DecimalPos.Unsigned.to_of, DecimalPos.Unsigned.of_to. reflexivity.
Qed.

(** The digits of a positive number start with a digit that is not 0 and
    read back as the number. *)
Lemma scan_nat_pos (p : positive) (rest : string) :
  ends_number rest = true ->
  Json.scan_nat (NilEmpty.string_of_uint (Pos.to_uint p) +:+ rest)
  = Some (Z.pos p, rest).
Proof.
  intros Hrest.
  pose proof (DecimalPos.Unsigned.of_to p) as Hof.
  pose proof (to_uint_normal p) as Hnorm.
  pose proof (DecimalPos.Unsigned.to_uint_nonzero p) as Hnz.
  assert (Hend : forall n : Z,
            match rest with
            | EmptyString => Some (n, rest)
            | String c' _ =>
                if (Ascii.eqb c' "." || Ascii.eqb c' "e" || Ascii.eqb c' "E")%bool
                then None else Some (n, rest)
            end = Some (n, rest)).
  { intros n. destruct rest as [|c' r]; [reflexivity|].
    unfold ends_number in Hrest. destruct (Json.digit c'); [discriminate|].
    apply negb_true_iff in Hrest. now rewrite Hrest. }
  destruct (Pos.to_uint p) as [|d|d|d|d|d|d|d|d|d|d] eqn:E;
    cbn [NilEmpty.string_of_uint]; rewrite ?append_cons.
  1: { exfalso. now apply (DecimalPos.Unsigned.to_uint_nonnil p). }
  1: { exfalso. apply unorm_head_zero in Hnorm. subst d. now apply Hnz. }
  all: unfold Json.scan_nat;
    match goal with
    | |- context [Json.digit ?c] =>
        let v := eval vm_compute in (Json.digit c) in change (Json.digit c) with v
    end;
    cbn [mbind option_bind Z.eqb];
    rewrite scan_digits_uint by exact Hrest; rewrite Hend;
    cbn [Pos.of_uint] in Hof; injection Hof as Hof;
    now rewrite <- of_uint_acc_value, Hof.
Qed.

Lemma scan_int_repr (n : Z) (rest : string) :
  ends_number rest = true ->
  Json.scan_int (Json.int_repr n +:+ rest) = Some (n, rest).
Proof.
  intros Hrest. unfold Json.int_repr.
  destruct n as [|p|p]; cbn [Z.to_int NilZero.string_of_int].
  - change (NilZero.string_of_uint Decimal.zero) with "0". rewrite append_cons, append_nil_l.
    unfold Json.scan_int, Json.scan_nat.
    change (Json.digit "0") with (Some 0). cbn [mbind option_bind Z.eqb].
    destruct rest as [|c' r]; [reflexivity|].
    unfold ends_number in Hrest. destruct (Json.digit c'); [discriminate|].
    apply negb_true_iff in Hrest. now rewrite Hrest.
  - assert (Hs : NilZero.string_of_uint (Pos.to_uint p)
                 = NilEmpty.string_of_uint (Pos.to_uint p)).
    { unfold NilZero.string_of_uint.
      destruct (Pos.to_uint p) eqn:E; try reflexivity.
      exfalso. now apply (DecimalPos.Unsigned.to_uint_nonnil p). }
    rewrite Hs. pose proof (scan_nat_pos p rest Hrest) as Hscan.
    unfold Json.scan_int.
    destruct (NilEmpty.string_of_uint (Pos.to_uint p) +:+ rest) as [|c s] eqn:E;
      [exact Hscan|].
    destruct (Ascii.eqb_spec c "-") as [->|Hne].
    + unfold Json.scan_nat in Hscan. discriminate Hscan.
    + destruct c as [[] [] [] [] [] [] [] []]; try exact Hscan. now contradiction Hne.
  - assert (Hs : NilZero.string_of_uint (Pos.to_uint p)
                 = NilEmpty.string_of_uint (Pos.to_uint p)).
    { unfold NilZero.string_of_uint.
      destruct (Pos.to_uint p) eqn:E; try reflexivity.
      exfalso. now apply (DecimalPos.Unsigned.to_uint_nonnil p). }
    rewrite Hs, append_cons. unfold Json.scan_int.
    rewrite scan_nat_pos by exact Hrest. reflexivity.
Qed.

(** The text of a number starts with a digit or with the sign. *)
Lemma int_repr_head (n : Z) :
  exists c tail,
    Json.int_repr n = String c tail
    /\ (c = "-"%char \/ exists d, Json.digit c = Some d).
Proof.
  pose proof (scan_int_repr n EmptyString eq_refl) as H. rewrite append_nil_r in H.
  destruct (Json.int_repr n) as [|c tail]; [discriminate H|].
  exists c, tail. split; [reflexivity|].
  destruct (Ascii.eqb_spec c "-") as [->|Hne]; [now left | right].
  assert (Hnat : Json.scan_nat (String c tail) = Some (n, EmptyString)).
  { unfold Json.scan_int in H.
    destruct c as [[] [] [] [] [] [] [] []]; try exact H. now contradiction Hne. }
  unfold Json.scan_nat in Hnat. destruct (Json.digit c) as [d|]; [eauto | discriminate].
Qed.


(** ** Strings *)

Lemma scan_string_escape_char (c : ascii) (tail body rest : string) :
  Json.scan_string tail = Some (body, rest) ->
  Json.scan_string (Json.escape_char c +:+ tail) = Some (String c body, rest).
Proof.
  intros H.
  destruct c as [[] [] [] [] [] [] [] []];
    match goal with
    | |- context [Json.escape_char ?c] =>
        let e := eval vm_compute in (Json.escape_char c) in
        change (Json.escape_char c) with e
    end;
    rewrite ?append_cons, ?append_nil_l; simpl; rewrite H; reflexivity.
Qed.

Lemma scan_string_escape (s rest : string) :
  Json.scan_string (Json.escape s +:+ String Json.dquote rest) = Some (s, rest).
Proof.
  induction s as [|c s IH]; [reflexivity|].
  cbn [Json.escape]. rewrite append_assoc. now apply scan_string_escape_char.
Qed.

Lemma encode_basestring_ascii_append (s rest : string) :
  Json.encode_basestring_ascii s +:+ rest
  = String Json.dquote (Json.escape s +:+ String Json.dquote rest).
Proof.
  unfold Json.encode_basestring_ascii, Json.str1.
  now rewrite append_cons, append_assoc.
Qed.

(** ** White space and the first character of a value *)

Lemma skip_ws_head (c : ascii) (s : string) :
  Json.is_ws c = false -> Json.skip_ws (String c s) = String c s.
Proof. intros H. cbn [Json.skip_ws]. now rewrite H. Qed.

Lemma skip_ws_spaces (n : nat) (s : string) :
  Json.skip_ws (Json.spaces n +:+ s) = Json.skip_ws s.
Proof. induction n as [|n IH]; [reflexivity|]. cbn [Json.spaces]. now rewrite append_cons. Qed.

Lemma skip_ws_newline_indent (indent level : nat) (s : string) :
  Json.skip_ws (Json.newline_indent indent level +:+ s) = Json.skip_ws s.
Proof.
  unfold Json.newline_indent. rewrite append_cons.
  change (Json.skip_ws (String Json.newline ?x)) with (Json.skip_ws x).
  apply skip_ws_spaces.
Qed.

Lemma ends_number_newline_indent (indent level : nat) (s : string) :
  ends_number (Json.newline_indent indent level +:+ s) = true.
Proof. reflexivity. Qed.


Lemma digit_opens_value (c : ascii) (d : Z) : Json.digit c = Some d -> opens_value c.
Proof.
  destruct c as [[] [] [] [] [] [] [] []]; intros H; try discriminate H;
    (split; [reflexivity | split; discriminate]).
Qed.

Lemma iterencode_head (indent level : nat) (v : value) :
  exists c tail, Json.iterencode indent level v = String c tail /\ opens_value c.
Proof.
  destruct v as [n|s|[|x items]|[|kv items]]; cbn [Json.iterencode].
  - destruct (int_repr_head n) as (c & tail & -> & Hc).
    exists c, tail. split; [reflexivity|].
    destruct Hc as [-> | [d Hd]];
      [split; [reflexivity | split; discriminate] | exact (digit_opens_value c d Hd)].
  - eexists _, _. split; [reflexivity|]. split; [reflexivity | split; discriminate].
  - eexists _, _. split; [reflexivity|]. split; [reflexivity | split; discriminate].
  - eexists _, _. split; [reflexivity|]. split; [reflexivity | split; discriminate].
  - eexists _, _. split; [reflexivity|]. split; [reflexivity | split; discriminate].
  - eexists _, _. split; [reflexivity|]. split; [reflexivity | split; discriminate].
Qed.

Lemma skip_ws_iterencode (indent level : nat) (v : value) (rest : string) :
  exists c tail,
    Json.skip_ws (Json.iterencode indent level v +:+ rest) = String c tail
    /\ Json.iterencode indent level v +:+ rest = String c tail
    /\ opens_value c.
Proof.
  destruct (iterencode_head indent level v) as (c & tail & -> & Hc).
  exists c, (tail +:+ rest). rewrite append_cons.
  split; [apply skip_ws_head; apply Hc | auto].
Qed.

(** ** One step of the scanner *)

Lemma scan_once_int (fuel : nat) (n : Z) (rest : string) :
  ends_number rest = true ->
  Json.scan_once (S fuel) (Json.int_repr n +:+ rest) = Some (VInt n, rest).
Proof.
  intros Hrest. pose proof (scan_int_repr n rest Hrest) as Hscan.
  destruct (int_repr_head n) as (c & tail & Hrepr & Hc).
  rewrite Hrepr, append_cons in *. cbn [Json.scan_once].
  assert (Hq : Ascii.eqb c Json.dquote = false
               /\ Ascii.eqb c "[" = false /\ Ascii.eqb c "{" = false).
  { destruct Hc as [-> | [d Hd]]; [repeat split|].
    repeat split; apply Ascii.eqb_neq; intros ->; discriminate Hd. }
  destruct Hq as (-> & -> & ->). now rewrite Hscan.
Qed.

Lemma scan_once_str (fuel : nat) (s rest : string) :
  Json.scan_once (S fuel) (Json.encode_basestring_ascii s +:+ rest)
  = Some (VStr s, rest).
Proof.
  rewrite encode_basestring_ascii_append. cbn [Json.scan_once].
  rewrite Ascii.eqb_refl, scan_string_escape. reflexivity.
Qed.

Lemma scan_once_array (fuel : nat) (tail : string) (c : ascii) (s : string) :
  Json.skip_ws tail = String c s -> c <> "]"%char ->
  Json.scan_once (S fuel) (String "[" tail) = Json.scan_array fuel (String c s) [].
Proof.
  intros Hskip Hc. cbn [Json.scan_once].
  change (Ascii.eqb "[" Json.dquote) with false. change (Ascii.eqb "[" "[") with true.
  cbv iota. rewrite Hskip.
  destruct c as [[] [] [] [] [] [] [] []]; try reflexivity. now contradiction Hc.
Qed.

Lemma scan_once_object (fuel : nat) (tail : string) (c : ascii) (s : string) :
  Json.skip_ws tail = String c s -> c <> "}"%char ->
  Json.scan_once (S fuel) (String "{" tail) = Json.scan_object fuel (String c s) [].
Proof.
  intros Hskip Hc. cbn [Json.scan_once].
  change (Ascii.eqb "{" Json.dquote) with false. change (Ascii.eqb "{" "[") with false.
  change (Ascii.eqb "{" "{") with true.
  cbv iota. rewrite Hskip.
  destruct c as [[] [] [] [] [] [] [] []]; try reflexivity. now contradiction Hc.
Qed.

Lemma scan_array_last (fuel : nat) (s rest tail : string) (v : value) (acc : list value) :
  Json.scan_once fuel s = Some (v, rest) ->
  Json.skip_ws rest = String "]" tail ->
  Json.scan_array (S fuel) s acc = Some (VList (acc ++ [v]), tail).
Proof. intros Hv Hskip. cbn [Json.scan_array]. rewrite Hv. cbn. now rewrite Hskip. Qed.

Lemma scan_array_more (fuel : nat) (s rest tail : string) (v : value) (acc : list value) :
  Json.scan_once fuel s = Some (v, rest) ->
  Json.skip_ws rest = String "," tail ->
  Json.scan_array (S fuel) s acc
  = Json.scan_array fuel (Json.skip_ws tail) (acc ++ [v]).
Proof. intros Hv Hskip. cbn [Json.scan_array]. rewrite Hv. cbn. now rewrite Hskip. Qed.


Lemma scan_object_item (fuel : nat) (k : string) (text rest : string) (v : value)
    (acc : list (string * value)) :
  (exists c tail, text = String c tail /\ opens_value c) ->
  Json.scan_once fuel text = Some (v, rest) ->
  Json.scan_object (S fuel) (Json.encode_basestring_ascii k +:+ ": " +:+ text) acc
  = match Json.skip_ws rest with
    | String "}" rest' => Some (VDict (Json.setitem acc k v), rest')
    | String "," rest' => Json.scan_object fuel (Json.skip_ws rest') (Json.setitem acc k v)
    | _ => None
    end.
Proof.
  intros (c & tail & Htext & Hc & _) Hv.
  rewrite encode_basestring_ascii_append. cbn [Json.scan_object].
  rewrite Ascii.eqb_refl, scan_string_escape. cbn [mbind option_bind].
  rewrite !append_cons, append_nil_l.
  rewrite (skip_ws_head ":") by reflexivity.
  change (Json.skip_ws (String " " text)) with (Json.skip_ws text).
  rewrite Htext, (skip_ws_head c) by exact Hc. rewrite <- Htext, Hv. reflexivity.
Qed.

Lemma setitem_fresh (acc : list (string * value)) (k : string) (v : value) :
  ~ In k (List.map fst acc) -> Json.setitem acc k v = acc ++ [(k, v)].
Proof.
  induction acc as [|[k' v'] acc IH]; intros Hk; [reflexivity|].
  cbn [Json.setitem]. destruct (String.eqb_spec k k') as [->|Hne].
  - exfalso. apply Hk. now left.
  - cbn [app]. f_equal. apply IH. intros Hin. apply Hk. now right.
Qed.

(** ** Induction on values *)

Lemma value_nested_ind (P : value -> Prop) :
  (forall n, P (VInt n)) ->
  (forall s, P (VStr s)) ->
  (forall items, Forall P items -> P (VList items)) ->
  (forall items, Forall (fun kv : string * value => P (snd kv)) items -> P (VDict items)) ->
  forall v, P v.
Proof.
  intros Hint Hstr Hlist Hdict. fix IH 1. intros [n|s|items|items].
  - apply Hint.
  - apply Hstr.
  - apply Hlist. induction items as [|x items IHitems].
    + apply List.Forall_nil.
    + apply List.Forall_cons; [apply IH | exact IHitems].
  - apply Hdict. induction items as [|[k x] items IHitems].
    + apply List.Forall_nil.
    + apply List.Forall_cons; [apply IH | exact IHitems].
Qed.

(** ** Arrays and objects *)

Lemma list_sum_cons (a : nat) (l : list nat) : list_sum (a :: l) = (a + list_sum l)%nat.
Proof. reflexivity. Qed.

Lemma join_head (sep chunk : string) (chunks : list string) (after : string) :
  (exists c tail, chunk = String c tail /\ opens_value c) ->
  exists c tail,
    Json.join sep (chunk :: chunks) +:+ after = String c tail /\ opens_value c.
Proof.
  intros (c & tail & -> & Hc).
  destruct chunks as [|chunk' chunks]; cbn [Json.join]; rewrite append_cons; eauto.
Qed.

Section Containers.

Variables (indent level : nat).

Let enc := Json.iterencode indent (S level).
Let sep := "," +:+ Json.newline_indent indent (S level).
Let closing := Json.newline_indent indent level.

(** A value reads back from its text, whatever follows it. *)
Let reads_back (x : value) : Prop :=
  forall rest fuel,
    ends_number rest = true -> (scan_calls x <= fuel)%nat ->
    Json.scan_once fuel (enc x +:+ rest) = Some (x, rest).

Lemma scan_array_elements (items : list value) :
  items <> [] -> Forall reads_back items ->
  forall acc rest fuel,
    (list_sum (List.map (fun x => S (scan_calls x)) items) <= fuel)%nat ->
    Json.scan_array fuel
      (Json.join sep (List.map enc items) +:+ closing +:+ String "]" rest) acc
    = Some (VList (acc ++ items), rest).
Proof.
  induction items as [|x items IH]; intros Hne Hall acc rest fuel Hfuel;
    [contradiction|].
  inversion Hall as [|x' items' Hx Hitems]; subst x' items'.
  cbn [List.map] in Hfuel. rewrite list_sum_cons in Hfuel.
  destruct fuel as [|fuel]; [lia|].
  destruct items as [|y items].
  - cbn [List.map Json.join].
    rewrite (scan_array_last fuel _ (closing +:+ String "]" rest) rest x acc).
    + reflexivity.
    + apply Hx; [apply ends_number_newline_indent | lia].
    + unfold closing. rewrite skip_ws_newline_indent. now apply skip_ws_head.
  - change (Json.join sep (List.map enc (x :: y :: items)))
      with (enc x +:+ sep +:+ Json.join sep (List.map enc (y :: items))).
    rewrite !append_assoc.
    set (after := Json.join sep (List.map enc (y :: items)) +:+ closing +:+ String "]" rest).
    assert (Hskip : Json.skip_ws (Json.newline_indent indent (S level) +:+ after) = after).
    { rewrite skip_ws_newline_indent. unfold after.
      destruct (join_head sep (enc y) (List.map enc items)
                  (closing +:+ String "]" rest) (iterencode_head _ _ y))
        as (c & tail & Heq & Hc).
      cbn [List.map]. rewrite Heq. apply skip_ws_head, Hc. }
    unfold sep at 1. rewrite append_assoc, append_cons, append_nil_l.
    rewrite (scan_array_more fuel _ (String "," (Json.newline_indent indent (S level) +:+ after))
               (Json.newline_indent indent (S level) +:+ after) x acc).
    + rewrite Hskip. unfold after.
      rewrite IH; [now rewrite <- app_assoc | discriminate | exact Hitems | lia].
    + apply Hx; [reflexivity | lia].
    + now apply skip_ws_head.
Qed.

Let chunk (kv : string * value) : string :=
  Json.encode_basestring_ascii (fst kv) +:+ ": " +:+ enc (snd kv).

Lemma chunk_head (kv : string * value) :
  exists c tail, chunk kv = String c tail /\ opens_value c.
Proof.
  unfold chunk. rewrite encode_basestring_ascii_append.
  eexists _, _. split; [reflexivity|]. split; [reflexivity | split; discriminate].
Qed.

Lemma scan_object_items (items : list (string * value)) :
  items <> [] -> Forall (fun kv => reads_back (snd kv)) items ->
  forall acc rest fuel,
    List.NoDup (List.map fst acc ++ List.map fst items) ->
    (list_sum (List.map (fun kv : string * value => S (scan_calls (snd kv))) items)
     <= fuel)%nat ->
    Json.scan_object fuel
      (Json.join sep (List.map chunk items) +:+ closing +:+ String "}" rest) acc
    = Some (VDict (acc ++ items), rest).
Proof.
  induction items as [|[k x] items IH]; intros Hne Hall acc rest fuel Hkeys Hfuel;
    [contradiction|].
  inversion Hall as [|kv items' Hx Hitems]; subst kv items'. cbn [snd] in Hx.
  cbn [List.map] in Hfuel. rewrite list_sum_cons in Hfuel. cbn [snd] in Hfuel.
  destruct fuel as [|fuel]; [lia|].
  assert (Hfresh : Json.setitem acc k x = acc ++ [(k, x)]).
  { apply setitem_fresh. cbn [List.map fst] in Hkeys.
    apply List.NoDup_remove_2 in Hkeys. intros Hin. apply Hkeys.
    apply in_or_app. now left. }
  assert (Hitem : forall after,
            ends_number after = true ->
            Json.scan_object (S fuel) (chunk (k, x) +:+ after) acc
            = match Json.skip_ws after with
              | String "}" rest' => Some (VDict (acc ++ [(k, x)]), rest')
              | String "," rest' =>
                  Json.scan_object fuel (Json.skip_ws rest') (acc ++ [(k, x)])
              | _ => None
              end).
  { intros after Hafter. unfold chunk. cbn [fst snd]. rewrite !append_assoc.
    change (String ":" (String " " EmptyString) +:+ enc x +:+ after)
      with (": " +:+ (enc x +:+ after)).
    rewrite (scan_object_item fuel k (enc x +:+ after) after x acc).
    - now rewrite Hfresh.
    - destruct (skip_ws_iterencode indent (S level) x after) as (c & tail & _ & H2 & Hc).
      exists c, tail. split; [exact H2 | exact Hc].
    - apply Hx; [exact Hafter | lia]. }
  destruct items as [|[k' y] items].
  - cbn [List.map Json.join]. rewrite Hitem by apply ends_number_newline_indent.
    unfold closing. rewrite skip_ws_newline_indent, (skip_ws_head "}") by reflexivity.
    reflexivity.
  - change (Json.join sep (List.map chunk ((k, x) :: (k', y) :: items)))
      with (chunk (k, x) +:+ sep +:+ Json.join sep (List.map chunk ((k', y) :: items))).
    rewrite !append_assoc.
    set (after := Json.join sep (List.map chunk ((k', y) :: items))
                  +:+ closing +:+ String "}" rest).
    assert (Hskip : Json.skip_ws (Json.newline_indent indent (S level) +:+ after) = after).
    { rewrite skip_ws_newline_indent. unfold after.
      destruct (join_head sep (chunk (k', y)) (List.map chunk items)
                  (closing +:+ String "}" rest) (chunk_head (k', y)))
        as (c & tail & Heq & Hc).
      cbn [List.map]. rewrite Heq. apply skip_ws_head, Hc. }
    unfold sep at 1. rewrite append_assoc, append_cons, append_nil_l.
    rewrite Hitem by reflexivity.
    rewrite (skip_ws_head ",") by reflexivity. rewrite Hskip. unfold after.
    rewrite IH; [now rewrite <- app_assoc | discriminate | exact Hitems | | lia].
    rewrite List.map_app, <- app_assoc. exact Hkeys.
Qed.

End Containers.

(** ** Any value *)

Lemma distinct_keys_list (items : list value) :
  distinct_keys (VList items) = true -> Forall (fun x => distinct_keys x = true) items.
Proof. cbn [distinct_keys]. intros H. apply List.Forall_forall. now apply forallb_forall. Qed.

Lemma distinct_keys_dict (items : list (string * value)) :
  distinct_keys (VDict items) = true ->
  List.NoDup (List.map fst items)
  /\ Forall (fun kv : string * value => distinct_keys (snd kv) = true) items.
Proof.
  cbn [distinct_keys]. intros H. apply andb_true_iff in H as [Hk Hv]. split.
  - apply bool_decide_eq_true in Hk. now apply NoDup_ListNoDup.
  - apply List.Forall_forall. intros kv Hin.
    now apply (proj1 (forallb_forall _ _) Hv kv).
Qed.

Lemma scan_once_iterencode (v : value) :
  distinct_keys v = true ->
  forall indent level rest fuel,
    ends_number rest = true -> (scan_calls v <= fuel)%nat ->
    Json.scan_once fuel (Json.iterencode indent level v +:+ rest) = Some (v, rest).
Proof.
  induction v as [n|s|items IH|items IH] using value_nested_ind;
    intros Hkeys indent level rest fuel Hrest Hfuel;
    (destruct fuel as [|fuel]; [cbn [scan_calls] in Hfuel; lia|]).
  - now apply scan_once_int.
  - apply scan_once_str.
  - destruct items as [|x items]; [reflexivity|].
    cbn [Json.iterencode]. rewrite !append_assoc, append_cons, append_nil_l.
    change ("]" +:+ rest) with (String "]" rest).
    apply distinct_keys_list in Hkeys.
    destruct (join_head ("," +:+ Json.newline_indent indent (S level))
                (Json.iterencode indent (S level) x)
                (List.map (Json.iterencode indent (S level)) items)
                (Json.newline_indent indent level +:+ String "]" rest)
                (iterencode_head _ _ x)) as (c & tail & Heq & Hc).
    rewrite (scan_once_array fuel _ c tail).
    + rewrite <- Heq. change [] with ([] ++ @nil value) at 1.
      change (Json.iterencode indent (S level) x
              :: List.map (Json.iterencode indent (S level)) items)
        with (List.map (Json.iterencode indent (S level)) (x :: items)).
      rewrite (scan_array_elements indent level (x :: items)).
      * reflexivity.
      * discriminate.
      * apply List.Forall_forall. intros y Hy rest' fuel' Hrest' Hfuel'.
        apply (proj1 (List.Forall_forall _ _) IH y Hy);
          [exact (proj1 (List.Forall_forall _ _) Hkeys y Hy) | exact Hrest' | exact Hfuel'].
      * cbn [scan_calls] in Hfuel. lia.
    + rewrite skip_ws_newline_indent.
      change (List.map (Json.iterencode indent (S level)) (x :: items))
        with (Json.iterencode indent (S level) x
              :: List.map (Json.iterencode indent (S level)) items).
      rewrite Heq. apply skip_ws_head, Hc.
    + apply Hc.
  - destruct items as [|kv items]; [reflexivity|].
    cbn [Json.iterencode]. rewrite !append_assoc, append_cons, append_nil_l.
    change ("}" +:+ rest) with (String "}" rest).
    apply distinct_keys_dict in Hkeys as [Hnodup Hkeys].
    set (chunk := fun kv : string * value =>
                    Json.encode_basestring_ascii (fst kv) +:+ ": "
                    +:+ Json.iterencode indent (S level) (snd kv)).
    assert (Hhead : exists c tail, chunk kv = String c tail /\ opens_value c).
    { unfold chunk. rewrite encode_basestring_ascii_append.
      eexists _, _. split; [reflexivity|]. split; [reflexivity | split; discriminate]. }
    destruct (join_head ("," +:+ Json.newline_indent indent (S level))
                (chunk kv) (List.map chunk items)
                (Json.newline_indent indent level +:+ String "}" rest) Hhead)
      as (c & tail & Heq & Hc).
    rewrite (scan_once_object fuel _ c tail).
    + rewrite <- Heq.
      change (chunk kv :: List.map chunk items) with (List.map chunk (kv :: items)).
      rewrite (scan_object_items indent level (kv :: items)).
      * reflexivity.
      * discriminate.
      * apply List.Forall_forall. intros y Hy rest' fuel' Hrest' Hfuel'.
        apply (proj1 (List.Forall_forall _ _) IH y Hy);
          [exact (proj1 (List.Forall_forall _ _) Hkeys y Hy) | exact Hrest' | exact Hfuel'].
      * exact Hnodup.
      * cbn [scan_calls] in Hfuel. lia.
    + rewrite skip_ws_newline_indent.
      change (List.map chunk (kv :: items)) with (chunk kv :: List.map chunk items).
      rewrite Heq. apply skip_ws_head, Hc.
    + apply Hc.
Qed.

(** ** Enough fuel *)

Lemma join_length_bound {A} (sep : string) (f : A -> nat) (g : A -> string)
    (items : list A) :
  (1 <= String.length sep)%nat ->
  Forall (fun x => (f x <= String.length (g x))%nat) items ->
  (list_sum (List.map (fun x => S (f x)) items)
   <= String.length (Json.join sep (List.map g items)) + 1)%nat.
Proof.
  intros Hsep Hall. induction Hall as [|x items Hx Hitems IH]; [cbn; lia|].
  cbn [List.map]. rewrite list_sum_cons.
  destruct items as [|y items].
  - cbn [List.map Json.join list_sum fold_right]. lia.
  - change (Json.join sep (g x :: List.map g (y :: items)))
      with (g x +:+ sep +:+ Json.join sep (List.map g (y :: items))).
    rewrite !length_append. lia.
Qed.

Lemma newline_indent_length (indent level : nat) :
  (1 <= String.length (Json.newline_indent indent level))%nat.
Proof. unfold Json.newline_indent. cbn [String.length]. lia. Qed.

Lemma scan_calls_length (v : value) : forall indent level,
  (scan_calls v <= String.length (Json.iterencode indent level v))%nat.
Proof.
  induction v as [n|s|items IH|items IH] using value_nested_ind; intros indent level.
  - cbn [scan_calls Json.iterencode].
    destruct (int_repr_head n) as (c & tail & -> & _). cbn [String.length]. lia.
  - cbn [scan_calls Json.iterencode]. unfold Json.encode_basestring_ascii.
    cbn [String.length]. lia.
  - destruct items as [|x items]; [cbn; lia|].
    cbn [scan_calls Json.iterencode]. rewrite !length_append.
    pose proof (join_length_bound ("," +:+ Json.newline_indent indent (S level))
                  scan_calls (Json.iterencode indent (S level)) (x :: items)) as Hjoin.
    pose proof (newline_indent_length indent (S level)).
    pose proof (newline_indent_length indent level).
    cbn [String.length] in *.
    assert (Hsum : (list_sum (List.map (fun x => S (scan_calls x)) (x :: items))
                    <= String.length
                         (Json.join ("," +:+ Json.newline_indent indent (S level))
                            (List.map (Json.iterencode indent (S level)) (x :: items)))
                       + 1)%nat).
    { apply Hjoin; [rewrite length_append; cbn [String.length]; lia|].
      apply List.Forall_forall. intros y Hy.
      apply (proj1 (List.Forall_forall _ _) IH y Hy). }
    lia.
  - destruct items as [|kv items]; [cbn; lia|].
    cbn [scan_calls Json.iterencode]. rewrite !length_append.
    set (chunk := fun kv : string * value =>
                    Json.encode_basestring_ascii (fst kv) +:+ ": "
                    +:+ Json.iterencode indent (S level) (snd kv)).
    pose proof (join_length_bound ("," +:+ Json.newline_indent indent (S level))
                  (fun kv : string * value => scan_calls (snd kv)) chunk (kv :: items))
      as Hjoin.
    pose proof (newline_indent_length indent (S level)).
    pose proof (newline_indent_length indent level).
    cbn [String.length] in *.
    assert (Hsum : (list_sum (List.map (fun kv : string * value => S (scan_calls (snd kv)))
                                (kv :: items))
                    <= String.length
                         (Json.join ("," +:+ Json.newline_indent indent (S level))
                            (List.map chunk (kv :: items)))
                       + 1)%nat).
    { apply Hjoin; [rewrite length_append; cbn [String.length]; lia|].
      apply List.Forall_forall. intros y Hy. unfold chunk.
      rewrite !length_append.
      pose proof (proj1 (List.Forall_forall _ _) IH y Hy indent (S level)). lia. }
    lia.
Qed.

(** ** The round trip *)

Lemma distinct_keys_ints (l : list Z) : distinct_keys (ints l) = true.
Proof.
  unfold ints. cbn [distinct_keys].
  induction l as [|x l IH]; [reflexivity | exact IH].
Qed.

Lemma frame_keys_distinct : bool_decide (NoDup frame_keys_list) = true.
Proof. vm_compute. reflexivity. Qed.

Lemma distinct_keys_frames (source : string) (chunk start : Z) (tokens : list Z)
    (target : Z) (slots : list Z) :
  distinct_keys (Raw.create_frame source chunk start tokens target slots) = true
  /\ distinct_keys (Remapped.create_frame source chunk start tokens target slots) = true.
Proof.
  unfold Raw.create_frame, Remapped.create_frame.
  cbn [distinct_keys List.map fst snd forallb].
  fold frame_keys_list. rewrite frame_keys_distinct, !distinct_keys_ints. auto.
Qed.

Lemma loads_dump (v : value) (indent : nat) :
  distinct_keys v = true -> Json.loads (Json.dump v indent) = Some v.
Proof.
  intros Hkeys. unfold Json.loads, Json.dump.
  destruct (skip_ws_iterencode indent 0 v EmptyString) as (c & tail & Hskip & Heq & _).
  rewrite append_nil_r in Hskip, Heq. rewrite Hskip, <- Heq.
  rewrite <- (append_nil_r (Json.iterencode indent 0 v)) at 2.
  rewrite scan_once_iterencode; [reflexivity | exact Hkeys | reflexivity|].
  pose proof (scan_calls_length v indent 0). lia.
Qed.




(** ** Plain text *)

Lemma plain_text_append (a b : string) :
  plain_text (a +:+ b) = (plain_text a && plain_text b)%bool.
Proof.
  induction a as [|c a IH]; [reflexivity|].
  rewrite append_cons. cbn [plain_text]. now rewrite IH, andb_assoc.
Qed.

Lemma plain_text_spaces (n : nat) : plain_text (Json.spaces n) = true.
Proof. induction n as [|n IH]; [reflexivity | exact IH]. Qed.

Lemma plain_text_newline_indent (indent level : nat) :
  plain_text (Json.newline_indent indent level) = true.
Proof. unfold Json.newline_indent. cbn [plain_text]. apply plain_text_spaces. Qed.

Lemma plain_text_escape_char (c : ascii) : plain_text (Json.escape_char c) = true.
Proof. destruct c as [[] [] [] [] [] [] [] []]; vm_compute; reflexivity. Qed.

Lemma plain_text_escape (s : string) : plain_text (Json.escape s) = true.
Proof.
  induction s as [|c s IH]; [reflexivity|].
  cbn [Json.escape]. now rewrite plain_text_append, plain_text_escape_char, IH.
Qed.

Lemma plain_text_encode_basestring_ascii (s : string) :
  plain_text (Json.encode_basestring_ascii s) = true.
Proof.
  unfold Json.encode_basestring_ascii. cbn [plain_text].
  now rewrite plain_text_append, plain_text_escape.
Qed.

Lemma plain_text_uint (d : Decimal.uint) : plain_text (NilEmpty.string_of_uint d) = true.
Proof. induction d; cbn [NilEmpty.string_of_uint plain_text]; auto. Qed.

Lemma plain_text_int_repr (n : Z) : plain_text (Json.int_repr n) = true.
Proof.
  unfold Json.int_repr.
  destruct (Z.to_int n) as [d|d]; cbn [NilZero.string_of_int];
    unfold NilZero.string_of_uint; destruct d; try reflexivity;
    cbn [plain_text]; apply (plain_text_uint (_ d)) || apply plain_text_uint.
Qed.

Lemma plain_text_join (sep : string) (chunks : list string) :
  plain_text sep = true -> Forall (fun c => plain_text c = true) chunks ->
  plain_text (Json.join sep chunks) = true.
Proof.
  intros Hsep Hall. induction Hall as [|c chunks Hc Hchunks IH]; [reflexivity|].
  destruct chunks as [|c' chunks]; [exact Hc|].
  change (Json.join sep (c :: c' :: chunks)) with (c +:+ sep +:+ Json.join sep (c' :: chunks)).
  now rewrite !plain_text_append, Hc, Hsep, IH.
Qed.

Lemma plain_text_iterencode (v : value) : forall indent level,
  plain_text (Json.iterencode indent level v) = true.
Proof.
  induction v as [n|s|items IH|items IH] using value_nested_ind; intros indent level.
  - apply plain_text_int_repr.
  - apply plain_text_encode_basestring_ascii.
  - destruct items as [|x items]; [reflexivity|].
    cbn [Json.iterencode]. rewrite !plain_text_append, !plain_text_newline_indent.
    rewrite plain_text_join; [reflexivity | |].
    + now rewrite plain_text_append, plain_text_newline_indent.
    + apply List.Forall_forall. intros c Hc. apply in_map_iff in Hc as (y & <- & Hy).
      apply (proj1 (List.Forall_forall _ _) IH y Hy).
  - destruct items as [|kv items]; [reflexivity|].
    cbn [Json.iterencode]. rewrite !plain_text_append, !plain_text_newline_indent.
    rewrite plain_text_join; [reflexivity | |].
    + now rewrite plain_text_append, plain_text_newline_indent.
    + apply List.Forall_forall. intros c Hc. apply in_map_iff in Hc as (y & <- & Hy).
      rewrite !plain_text_append, plain_text_encode_basestring_ascii.
      now rewrite (proj1 (List.Forall_forall _ _) IH y Hy).
Qed.


(** ** The growing context of the remapped catalog *)

(** X17.  In the remapped-mode corpus each frame that shares its chunk with
    the frame before it has that frame's context followed by that frame's
    target as its own context: the frames of a chunk spell one token chain,
    each predicting the next token of it. *)
Theorem remapped_frames_chained : chained Remapped.frames.
Proof.
  rewrite remapped_frames_catalog. unfold Remapped.catalog.
  cbn [List.map chained].
  repeat split; intros Hchunk; try discriminate Hchunk;
    eexists _, _; (split; [reflexivity | split; reflexivity]).
Qed.
